(** * Racing data-quality checks (file_compare_pyspark.py)

    A shallow embedding of the check battery of [file_compare_pyspark.py]
    and of the part of the Spark DataFrame semantics the script relies on.

    Conventions of the embedding (Spark 3.x defaults, which the script does
    not change):
    - SQL three-valued logic: a boolean column is [option bool], [None]
      being SQL NULL; [filter] keeps a row only when its condition is
      [Some true];
    - casts never raise (ANSI mode off): a value that cannot be coerced
      becomes NULL;
    - column references are resolved case-insensitively against the frame
      and raise an analysis error when no column or several columns match;
      Python's [c in df.columns] is an exact comparison;
    - strings are byte strings; [lower] folds ASCII letters only;
    - a double is an extended rational: every constant a claim compares
      with (0, 30, 100, 250) is exactly representable and rounding to
      binary64 is monotone, so the outcome of those comparisons is the one
      of the exact values;
    - [filter] and [limit] keep the order of their input; the order in
      which the engine emits groups and window partitions is not fixed by
      the script: the embedding uses first-occurrence order, and the
      violation counts proved below do not depend on that choice.

    The embedding starts from the cleaned frame [df]: reading the CSV
    file, [clean_cols], the HTML report and the CSV export are outside
    it. *)

From Stdlib Require Import ZArith QArith Qcanon List String Ascii Bool Lia.
From Stdlib Require Import DecimalString.
Import ListNotations.
Local Open Scope string_scope.
Local Open Scope list_scope.
Local Open Scope Z_scope.

(** ** Errors *)

(** The script has no [try]/[except]: the only errors the embedding tracks
    are the analysis errors Spark raises when a column reference cannot be
    resolved. *)
Inductive error : Type :=
| Unresolved (name : string)
| Ambiguous (name : string).

Inductive result (A : Type) : Type :=
| Ok (a : A)
| Err (e : error).
Arguments Ok {A} a.
Arguments Err {A} e.

Definition bind {A B : Type} (m : result A) (k : A -> result B) : result B :=
  match m with
  | Ok a => k a
  | Err e => Err e
  end.

Notation "x <- m ;; k" := (bind m (fun x => k))
  (at level 61, m at next level, right associativity).

(** ** Values *)

(** Doubles with Spark's total order: -inf < finite < +inf < NaN, NaN equal
    to itself and a single zero. *)
Inductive double : Type :=
| DNegInf
| DFin (q : Qc)
| DPosInf
| DNaN.

Definition double_compare (x y : double) : comparison :=
  match x, y with
  | DNegInf, DNegInf => Eq
  | DNegInf, _ => Lt
  | DFin _, DNegInf => Gt
  | DFin p, DFin q => (p ?= q)%Qc
  | DFin _, _ => Lt
  | DPosInf, DNaN => Lt
  | DPosInf, DPosInf => Eq
  | DPosInf, _ => Gt
  | DNaN, DNaN => Eq
  | DNaN, _ => Gt
  end.

Definition double_ltb (x y : double) : bool :=
  match double_compare x y with Lt => true | _ => false end.

Definition double_leb (x y : double) : bool :=
  match double_compare x y with Gt => false | _ => true end.

Definition double_lt (x y : double) : Prop := double_compare x y = Lt.

Definition double_of_Z (z : Z) : double := DFin (Q2Qc (inject_Z z)).

Definition long_min : Z := - 2 ^ 63.
Definition long_max : Z := 2 ^ 63 - 1.

(** Scala's [Double.toLong]: truncation toward zero, saturating, NaN to 0. *)
Definition double_to_long (d : double) : Z :=
  match d with
  | DNaN => 0
  | DNegInf => long_min
  | DPosInf => long_max
  | DFin q => Z.max long_min (Z.min long_max (Z.quot (Qnum q) (Zpos (Qden q))))
  end.

Inductive cell : Type :=
| VNull
| VLong (z : Z)
| VDouble (d : double)
| VString (s : string).

Definition double_eq_dec (x y : double) : {x = y} + {x <> y}.
Proof. decide equality. apply Qc_eq_dec. Defined.

Definition cell_eq_dec (x y : cell) : {x = y} + {x <> y}.
Proof.
  decide equality.
  - apply Z.eq_dec.
  - apply double_eq_dec.
  - apply string_dec.
Defined.

Definition key_eq_dec : forall x y : list cell, {x = y} + {x <> y} :=
  list_eq_dec cell_eq_dec.

Definition is_null (c : cell) : bool :=
  match c with VNull => true | _ => false end.

(** ** Three-valued logic *)

Definition tri : Type := option bool.

Definition and3 (a b : tri) : tri :=
  match a, b with
  | Some false, _ | _, Some false => Some false
  | Some true, Some true => Some true
  | _, _ => None
  end.

Definition or3 (a b : tri) : tri :=
  match a, b with
  | Some true, _ | _, Some true => Some true
  | Some false, Some false => Some false
  | _, _ => None
  end.

Definition not3 (a : tri) : tri := option_map negb a.

Definition holds (a : tri) : bool :=
  match a with Some true => true | _ => false end.

Definition lift2 {A : Type} (f : A -> A -> bool) (a b : option A) : tri :=
  match a, b with
  | Some x, Some y => Some (f x y)
  | _, _ => None
  end.

Definition isNull {A : Type} (a : option A) : tri :=
  Some (match a with None => true | Some _ => false end).

(** ** Strings *)

Definition lower_ascii (c : ascii) : ascii :=
  let n := nat_of_ascii c in
  if (Nat.leb 65 n && Nat.leb n 90)%bool then ascii_of_nat (n + 32) else c.

Fixpoint lower (s : string) : string :=
  match s with
  | EmptyString => EmptyString
  | String c s' => String (lower_ascii c) (lower s')
  end.

(** [F.trim] removes space characters (U+0020) from both ends. *)
Fixpoint ltrim (s : string) : string :=
  match s with
  | String c s' => if Ascii.eqb c " " then ltrim s' else s
  | EmptyString => EmptyString
  end.

Fixpoint rtrim (s : string) : string :=
  match s with
  | EmptyString => EmptyString
  | String c s' =>
      match rtrim s' with
      | EmptyString => if Ascii.eqb c " " then EmptyString else String c EmptyString
      | t => String c t
      end
  end.

Definition trim (s : string) : string := rtrim (ltrim s).

Definition is_digit (c : ascii) : bool :=
  let n := nat_of_ascii c in (Nat.leb 48 n && Nat.leb n 57)%bool.

Fixpoint all_digits (s : string) : bool :=
  match s with
  | EmptyString => true
  | String c s' => is_digit c && all_digits s'
  end.

Fixpoint take (n : nat) (s : string) : string :=
  match n, s with
  | S n', String c s' => String c (take n' s')
  | _, _ => EmptyString
  end.

Fixpoint drop (n : nat) (s : string) : string :=
  match n, s with
  | S n', String c s' => drop n' s'
  | _, _ => s
  end.

Definition chr (n : nat) : string := String (ascii_of_nat n) EmptyString.

(** Java's line terminators, in UTF-8: LF, CR, CR LF, U+0085, U+2028,
    U+2029. *)
Definition line_terminators : list string :=
  [chr 10; chr 13; chr 13 ++ chr 10; chr 194 ++ chr 133;
   chr 226 ++ chr 128 ++ chr 168; chr 226 ++ chr 128 ++ chr 169]%string.

(** [java_dollar rest]: the anchor [$] of java.util.regex (no MULTILINE
    flag) accepts the position before [rest] when [rest] is empty or is
    one final line terminator. *)
Definition java_dollar (rest : string) : bool :=
  String.eqb rest "" || existsb (String.eqb rest) line_terminators.

(** [rlike(r"^\d{13}$")]: Spark's RLike is [Matcher.find]; [^] anchors the
    match at offset 0 and [\d] is [[0-9]]. *)
Definition rlike_13_digits (s : string) : bool :=
  let d := take 13 s in
  Nat.eqb (String.length d) 13 && all_digits d && java_dollar (drop 13 s).

(** Spelled from the check's name: the string is exactly 13 decimal
    digits. *)
Definition exactly_13_digits (s : string) : bool :=
  Nat.eqb (String.length s) 13 && all_digits s.

(** ** Coercions *)

(** Spark's parsing of strings into numbers and its printing of doubles
    are engine functions the script only calls; the checks are stated for
    any such functions. *)
Class Engine : Type := {
  string_to_long : string -> option Z;
  string_to_double : string -> option double;
  double_to_string : double -> string
}.

Definition long_to_string (z : Z) : string :=
  NilZero.string_of_int (Z.to_int z).

Section Casts.
Context {E : Engine}.

Definition cast_long (c : cell) : option Z :=
  match c with
  | VNull => None
  | VLong z => Some z
  | VDouble d => Some (double_to_long d)
  | VString s => string_to_long s
  end.

Definition cast_double (c : cell) : option double :=
  match c with
  | VNull => None
  | VLong z => Some (double_of_Z z)
  | VDouble d => Some d
  | VString s => string_to_double s
  end.

Definition cast_string (c : cell) : option string :=
  match c with
  | VNull => None
  | VLong z => Some (long_to_string z)
  | VDouble d => Some (double_to_string d)
  | VString s => Some s
  end.
End Casts.

Definition cell_of_long (o : option Z) : cell :=
  match o with Some z => VLong z | None => VNull end.

Definition long_of_cell (c : cell) : option Z :=
  match c with VLong z => Some z | _ => None end.

(** ** Frames *)

(** A row maps column names to cells; a column the row does not carry
    reads as NULL. *)
Definition row : Type := list (string * cell).

Record frame : Type := mkFrame {
  columns : list string;
  rows : list row
}.

Fixpoint get (name : string) (r : row) : cell :=
  match r with
  | [] => VNull
  | (k, v) :: r' => if String.eqb name k then v else get name r'
  end.

(** Python's [c in df.columns]. *)
Definition has_col (c : string) (cols : list string) : bool :=
  existsb (String.eqb c) cols.

(** Spark's resolver with [spark.sql.caseSensitive=false]. *)
Definition ci_eqb (a b : string) : bool := String.eqb (lower a) (lower b).

Definition resolve (name : string) (cols : list string) : result string :=
  match filter (ci_eqb name) cols with
  | [] => Err (Unresolved name)
  | [c] => Ok c
  | _ :: _ :: _ => Err (Ambiguous name)
  end.

Fixpoint resolve_all (names cols : list string) : result (list string) :=
  match names with
  | [] => Ok []
  | n :: names' =>
      c <- resolve n cols ;;
      cs <- resolve_all names' cols ;;
      Ok (c :: cs)
  end.

(** [withColumn]: an existing column of that name (up to case) is replaced
    and takes the new name, otherwise the column is appended. *)
Definition put (name : string) (v : cell) (r : row) : row :=
  if existsb (fun kv => ci_eqb name (fst kv)) r
  then map (fun kv => if ci_eqb name (fst kv) then (name, v) else kv) r
  else r ++ [(name, v)].

Definition put_col (name : string) (cols : list string) : list string :=
  if existsb (ci_eqb name) cols
  then map (fun c => if ci_eqb name c then name else c) cols
  else cols ++ [name].

Definition withColumn (name : string) (e : row -> cell) (f : frame) : frame :=
  {| columns := put_col name (columns f);
     rows := map (fun r => put name (e r) r) (rows f) |}.

(** [df.filter(cond)]: rows whose condition is NULL are dropped. *)
Definition where_ (cond : row -> tri) (f : frame) : frame :=
  {| columns := columns f;
     rows := filter (fun r => holds (cond r)) (rows f) |}.

Definition count (f : frame) : Z := Z.of_nat (List.length (rows f)).

(** *** Grouping *)

Definition key_of (names : list string) (r : row) : list cell :=
  map (fun n => get n r) names.

Definition key_eqb (a b : list cell) : bool :=
  if key_eq_dec a b then true else false.

(** The distinct keys, in order of first occurrence. *)
Fixpoint distinct (ks : list (list cell)) : list (list cell) :=
  match ks with
  | [] => []
  | k :: ks' => k :: remove key_eq_dec k (distinct ks')
  end.

(** [groupBy] of the key columns followed by [count()]: one row per distinct key tuple (NULL
    keys form a group of their own) with the size of the group. *)
Definition groupBy_count (names : list string) (f : frame) : frame :=
  let keys := map (key_of names) (rows f) in
  {| columns := names ++ ["count"];
     rows := map (fun k =>
                    combine names k ++
                    [("count", VLong (Z.of_nat (count_occ key_eq_dec keys k)))])
                 (distinct keys) |}.

(** *** Windows *)

Definition partitions (key : row -> list cell) (rs : list row) : list (list row) :=
  map (fun k => filter (fun r => key_eqb (key r) k) rs) (distinct (map key rs)).

(** Ascending order of Spark, NULLS FIRST. *)
Definition ord_leb (a b : option Z) : bool :=
  match a, b with
  | None, _ => true
  | Some _, None => false
  | Some x, Some y => x <=? y
  end.

Fixpoint insert (ord : row -> option Z) (r : row) (l : list row) : list row :=
  match l with
  | [] => [r]
  | x :: l' => if ord_leb (ord r) (ord x) then r :: l else x :: insert ord r l'
  end.

(** A stable sort: rows with equal keys keep their input order. *)
Fixpoint sort (ord : row -> option Z) (l : list row) : list row :=
  match l with
  | [] => []
  | r :: l' => insert ord r (sort ord l')
  end.

(** [F.lag(src).over(w)] for the two columns the script derives over the
    same window [w]: within a partition each row receives the values of
    the row before it, the first row receives NULL. *)
Fixpoint lag_rows (src1 dst1 src2 dst2 : string) (prev1 prev2 : cell)
    (rs : list row) : list row :=
  match rs with
  | [] => []
  | r :: rs' =>
      put dst2 prev2 (put dst1 prev1 r)
        :: lag_rows src1 dst1 src2 dst2 (get src1 r) (get src2 r) rs'
  end.

Definition lag_window (pkeys : list string) (ord : row -> option Z)
    (src1 dst1 src2 dst2 : string) (f : frame) : frame :=
  {| columns := put_col dst2 (put_col dst1 (columns f));
     rows := flat_map (fun p => lag_rows src1 dst1 src2 dst2 VNull VNull (sort ord p))
                      (partitions (key_of pkeys) (rows f)) |}.

(** ** Results *)

Inductive status_t : Type := PASS | FAIL.

Record check_result : Type := mkResult {
  name : string;
  violations : Z;
  status : status_t;
  sample_cols : list string;
  sample : list row;
  csv : option string;
  note : string
}.

(** The second argument of [add_result] is a DataFrame or an integer. *)
Inductive count_like : Type :=
| OfFrame (f : frame)
| OfInt (n : Z).

Definition out_dir : string := "dq_report".

Definition sample_rows (df : frame) (cols : list string) (n : nat)
  : result (list row) :=
  let cols := filter (fun c => has_col c (columns df)) cols in
  match cols with
  | [] => Ok []
  | _ :: _ =>
      names <- resolve_all cols (columns df) ;;
      Ok (map (fun r => map (fun c => (c, get c r)) names) (firstn n (rows df)))
  end.

Definition write_violations (df : frame) (name : string) : option string :=
  if count df =? 0 then None
  else Some (out_dir ++ "/violations/" ++ name)%string.

Definition add_result (results : list check_result) (name : string)
    (df_count : count_like) (sample_cols : list string) (note : string)
  : result (list check_result) :=
  match df_count with
  | OfFrame df =>
      let cnt := count df in
      samp_rows <- sample_rows df sample_cols 20 ;;
      let csv_path := write_violations df name in
      Ok (results ++
            [mkResult name cnt (if cnt =? 0 then PASS else FAIL)
               sample_cols samp_rows csv_path note])
  | OfInt n =>
      Ok (results ++
            [mkResult name n (if n =? 0 then PASS else FAIL)
               sample_cols [] None note])
  end.

(** ** The checks *)

Definition quoted (s : string) : string := ("'" ++ s ++ "'")%string.

(** [repr] of a Python list of strings. *)
Definition py_list (l : list string) : string :=
  ("[" ++ String.concat ", " (map quoted l) ++ "]")%string.

(** [repr] of a non-empty Python set of strings; Python does not fix the
    order of the elements, they are printed here in the order given. *)
Definition py_set (l : list string) : string :=
  ("{" ++ String.concat ", " (map quoted l) ++ "}")%string.

Definition double_gtb (x y : double) : bool :=
  match double_compare x y with Gt => true | _ => false end.

Definition double_geb (x y : double) : bool :=
  match double_compare x y with Lt => false | _ => true end.

Definition double_of_Q (q : Q) : double := DFin (Q2Qc q).

Definition required : list string :=
  ["event_id"; "session"; "lap"; "timestamp_ms"; "driver"; "team"; "car_no"; "tyre"].

Definition pk : list string := ["event_id"; "session"; "car_no"; "lap"].

Definition need : list string :=
  ["event_id"; "session"; "car_no"; "lap"; "timestamp_ms"].

Definition allowed : list string :=
  ["Soft"; "Medium"; "Hard"; "Wet"; "Intermediate"].

Definition missing_from (names cols : list string) : list string :=
  filter (fun c => negb (has_col c cols)) names.

Definition all_present (names cols : list string) : bool :=
  forallb (fun c => has_col c cols) names.

(** [Column.isin] over a list of non-null literals. *)
Definition isin (v : option string) (l : list string) : tri :=
  option_map (fun s => existsb (String.eqb s) l) v.

Section Checks.
Context {E : Engine}.

(** required columns *)
Definition check_required (results : list check_result) (df : frame)
  : result (list check_result) :=
  let missing := missing_from required (columns df) in
  add_result results "required_columns_present"
    (OfInt (match missing with [] => 0 | _ :: _ => 1 end)) []
    (match missing with
     | [] => "All present"
     | _ :: _ => "Missing: " ++ String.concat ", " missing
     end)%string.

(** pk uniqueness *)
Definition dupes (df : frame) : result frame :=
  ks <- resolve_all pk (columns df) ;;
  let g := groupBy_count ks df in
  c <- resolve "count" (columns g) ;;
  Ok (where_ (fun r => lift2 Z.gtb (long_of_cell (get c r)) (Some 1)) g).

Definition check_pk (results : list check_result) (df : frame)
  : result (list check_result) :=
  if all_present pk (columns df) then
    d <- dupes df ;;
    add_result results "pk_unique" (OfFrame d) (pk ++ ["count"]) ""
  else
    add_result results "pk_unique" (OfInt 1) []
      ("Missing PK cols: " ++ py_set (missing_from pk (columns df)))%string.

(** timestamp format (13 digits) *)
Definition ts_cond (c : cell) : tri :=
  or3 (Some (is_null c))
      (not3 (option_map rlike_13_digits (cast_string c))).

Definition bad_ts (df : frame) : result frame :=
  c <- resolve "timestamp_ms" (columns df) ;;
  Ok (where_ (fun r => ts_cond (get c r)) df).

Definition check_ts (results : list check_result) (df : frame)
  : result (list check_result) :=
  b <- bad_ts df ;;
  add_result results "timestamp_ms_is_13_digits" (OfFrame b)
    ["event_id"; "lap"; "timestamp_ms"] "".

(** per car, in lap order: lap and timestamp against the previous row *)
Definition d2 (df : frame) : result frame :=
  lap <- resolve "lap" (columns df) ;;
  let d_lap := withColumn "lap_long"
                 (fun r => cell_of_long (cast_long (get lap r))) df in
  ts <- resolve "timestamp_ms" (columns d_lap) ;;
  let d_ts := withColumn "ts_long"
                (fun r => cell_of_long (cast_long (get ts r))) d_lap in
  keys <- resolve_all ["event_id"; "session"; "car_no"] (columns d_ts) ;;
  o <- resolve "lap" (columns d_ts) ;;
  src1 <- resolve "lap_long" (columns d_ts) ;;
  src2 <- resolve "ts_long" (put_col "prev_lap" (columns d_ts)) ;;
  Ok (lag_window keys (fun r => cast_long (get o r))
        src1 "prev_lap" src2 "prev_ts" d_ts).

Definition back_cond (cur prev : cell) : tri :=
  and3 (Some (negb (is_null prev)))
       (lift2 Z.ltb (long_of_cell cur) (long_of_cell prev)).

Definition lap_back (d : frame) : result frame :=
  prev <- resolve "prev_lap" (columns d) ;;
  cur <- resolve "lap_long" (columns d) ;;
  Ok (where_ (fun r => back_cond (get cur r) (get prev r)) d).

Definition ts_back (d : frame) : result frame :=
  prev <- resolve "prev_ts" (columns d) ;;
  cur <- resolve "ts_long" (columns d) ;;
  Ok (where_ (fun r => back_cond (get cur r) (get prev r)) d).

Definition check_sequence (results : list check_result) (df : frame)
  : result (list check_result) :=
  if all_present need (columns df) then
    d <- d2 df ;;
    lb <- lap_back d ;;
    tb <- ts_back d ;;
    results <- add_result results "lap_not_decreasing_per_car" (OfFrame lb)
                 ["event_id"; "session"; "car_no"; "prev_lap"; "lap"] "" ;;
    add_result results "timestamp_not_decreasing_per_car" (OfFrame tb)
      ["event_id"; "session"; "car_no"; "prev_ts"; "timestamp_ms"] ""
  else
    results <- add_result results "lap_not_decreasing_per_car" (OfInt 1) []
                 "missing columns" ;;
    add_result results "timestamp_not_decreasing_per_car" (OfInt 1) []
      "missing columns".

(** data ranges *)
Definition range_cond (lo hi : double) (c : cell) : tri :=
  let x := cast_double c in
  or3 (or3 (isNull x) (lift2 double_ltb x (Some lo)))
      (lift2 double_gtb x (Some hi)).

Definition floor_cond (lo : double) (c : cell) : tri :=
  let x := cast_double c in
  or3 (isNull x) (lift2 double_ltb x (Some lo)).

Definition bad_air (df : frame) : result frame :=
  c <- resolve "air_temp_c" (columns df) ;;
  Ok (where_ (fun r => range_cond (double_of_Z 0) (double_of_Z 30) (get c r)) df).

Definition bad_track (df : frame) : result frame :=
  c <- resolve "track_temp_c" (columns df) ;;
  Ok (where_ (fun r => range_cond (double_of_Z (-20)) (double_of_Z 80) (get c r)) df).

Definition bad_soc (df : frame) : result frame :=
  c <- resolve "battery_soc" (columns df) ;;
  Ok (where_ (fun r => range_cond (double_of_Q (6 # 10)) (double_of_Z 40) (get c r)) df).

Definition bad_fuel (df : frame) : result frame :=
  c <- resolve "fuel_kg" (columns df) ;;
  Ok (where_ (fun r => floor_cond (double_of_Z 0) (get c r)) df).

Definition check_ranges (results : list check_result) (df : frame)
  : result (list check_result) :=
  air <- bad_air df ;;
  track <- bad_track df ;;
  soc <- bad_soc df ;;
  fuel <- bad_fuel df ;;
  results <- add_result results "air_temp_c_in_0_30" (OfFrame air)
               ["event_id"; "lap"; "air_temp_c"] "" ;;
  results <- add_result results "track_temp_c_in_-20_80" (OfFrame track)
               ["event_id"; "lap"; "track_temp_c"] "" ;;
  results <- add_result results "battery_soc_in_0.6_40" (OfFrame soc)
               ["event_id"; "lap"; "battery_soc"] "" ;;
  add_result results "fuel_kg_non_negative" (OfFrame fuel)
    ["event_id"; "lap"; "fuel_kg"] "".

(** conditional: wet -> sensor_0008_val in [100, 250] *)
Definition is_wet (tyre : cell) : tri :=
  lift2 String.eqb (option_map lower (option_map trim (cast_string tyre)))
        (Some "wet").

Definition between (x : option double) (lo hi : double) : tri :=
  and3 (lift2 double_geb x (Some lo)) (lift2 double_leb x (Some hi)).

Definition wet_cond (tyre sensor : cell) : tri :=
  let v8 := cast_double sensor in
  and3 (is_wet tyre)
       (or3 (isNull v8)
            (not3 (between v8 (double_of_Z 100) (double_of_Z 250)))).

Definition bad_wet (df : frame) : result frame :=
  t <- resolve "tyre" (columns df) ;;
  s <- resolve "sensor_0008_val" (columns df) ;;
  Ok (where_ (fun r => wet_cond (get t r) (get s r)) df).

Definition check_wet (results : list check_result) (df : frame)
  : result (list check_result) :=
  if has_col "tyre" (columns df) && has_col "sensor_0008_val" (columns df) then
    b <- bad_wet df ;;
    add_result results "if_wet_then_sensor_0008_val_100_250" (OfFrame b)
      ["event_id"; "lap"; "tyre"; "sensor_0008_val"] ""
  else
    add_result results "if_wet_then_sensor_0008_val_100_250" (OfInt 1) []
      "missing tyre or sensor_0008_val".

(** tyre domain *)
Definition tyre_cond (tyre : cell) : tri :=
  not3 (isin (option_map lower (cast_string tyre)) (map lower allowed)).

Definition bad_tyre (df : frame) : result frame :=
  t <- resolve "tyre" (columns df) ;;
  Ok (where_ (fun r => tyre_cond (get t r)) df).

Definition check_tyre (results : list check_result) (df : frame)
  : result (list check_result) :=
  if has_col "tyre" (columns df) then
    b <- bad_tyre df ;;
    add_result results "tyre_in_domain" (OfFrame b)
      ["event_id"; "lap"; "tyre"] ("Allowed: " ++ py_list allowed)%string
  else
    add_result results "tyre_in_domain" (OfInt 1) [] "missing tyre".

(** The module-level script, from [results = []] to the last
    [add_result]. *)
Definition run (df : frame) : result (list check_result) :=
  results <- check_required [] df ;;
  results <- check_pk results df ;;
  results <- check_ts results df ;;
  results <- check_sequence results df ;;
  results <- check_ranges results df ;;
  results <- check_wet results df ;;
  check_tyre results df.
End Checks.

Definition check_names : list string :=
  ["required_columns_present"; "pk_unique"; "timestamp_ms_is_13_digits";
   "lap_not_decreasing_per_car"; "timestamp_not_decreasing_per_car";
   "air_temp_c_in_0_30"; "track_temp_c_in_-20_80"; "battery_soc_in_0.6_40";
   "fuel_kg_non_negative"; "if_wet_then_sensor_0008_val_100_250";
   "tyre_in_domain"].

(** ** A reference engine *)

(** Plain signed decimal integers are parsed and doubles are printed with
    one fractional digit: enough to evaluate the checks on concrete
    frames; the theorems hold for every [Engine]. *)
Definition parse_long (s : string) : option Z :=
  match NilZero.int_of_string s with
  | Some i => Some (Z.of_int i)
  | None => None
  end.

Definition print_double (d : double) : string :=
  match d with
  | DNaN => "NaN"
  | DPosInf => "Infinity"
  | DNegInf => "-Infinity"
  | DFin q =>
      let n := Z.abs (Qnum q) in
      let d := Zpos (Qden q) in
      let sign := if Qnum q <? 0 then "-" else "" in
      (sign ++ long_to_string (n / d) ++ "." ++
       long_to_string ((n * 10 / d) mod 10))%string
  end.

#[export] Instance reference_engine : Engine := {|
  string_to_long := parse_long;
  string_to_double := fun s => option_map double_of_Z (parse_long s);
  double_to_string := print_double
|}.

(** ** Specification-side notions *)

(** Column names are pairwise distinct up to case. *)
Definition NoDupCI (cols : list string) : Prop := NoDup (map lower cols).

(** The claim's words for a range violation: the value is null, does not
    coerce to a number, or lies outside [[lo, hi]]. *)
Definition out_of_range {E : Engine} (lo hi : double) (c : cell) : Prop :=
  c = VNull \/ cast_double c = None \/
  exists d, cast_double c = Some d /\ (double_lt d lo \/ double_lt hi d).

(** The antecedent of the conditional check: the tyre reads "wet" once
    trimmed and case-folded. *)
Definition wet {E : Engine} (tyre : cell) : Prop :=
  exists s, cast_string tyre = Some s /\ lower (trim s) = "wet".

Definition air_row (v : cell) : row := [("air_temp_c", v)].

Definition air_frame : frame :=
  mkFrame ["air_temp_c"]
    (map air_row [VLong (-1); VLong 0; VLong 15; VLong 30; VLong 31; VNull]).

Definition wet_row (tyre sensor : cell) : row :=
  [("tyre", tyre); ("sensor_0008_val", sensor)].

Definition wet_frame : frame :=
  mkFrame ["tyre"; "sensor_0008_val"]
    [wet_row (VString "dry") (VLong 9999);
     wet_row (VString " WET ") (VLong 50);
     wet_row (VString "Wet") VNull;
     wet_row (VString "wet") (VLong 100);
     wet_row (VString "wet") (VLong 250);
     wet_row VNull (VLong 9999)].

(** Thirteen digits followed by U+2028 (LINE SEPARATOR), a character a
    CSV field can carry. *)
Definition ts_with_terminator : string :=
  ("1234567890123" ++ chr 226 ++ chr 128 ++ chr 168)%string.

Definition ts_row (v : cell) : row := [("timestamp_ms", v)].

Definition ts_frame : frame :=
  mkFrame ["timestamp_ms"]
    (map ts_row [VLong 1234567890123; VLong 123456789012;
                 VLong 12345678901234; VNull; VString ts_with_terminator]).

Definition tyre_row (v : cell) : row := [("tyre", v)].

Definition tyre_frame : frame :=
  mkFrame ["tyre"] (map tyre_row [VString "Wet"; VString " Wet "; VString "slick"]).

(** The columns the script refers to. *)
Definition script_columns : list string :=
  ["event_id"; "session"; "lap"; "timestamp_ms"; "driver"; "team"; "car_no";
   "tyre"; "air_temp_c"; "track_temp_c"; "battery_soc"; "fuel_kg";
   "sensor_0008_val"].

(** A frame with every column of the script but [c], and no row. *)
Definition frame_without (c : string) : frame :=
  mkFrame (filter (fun n => negb (String.eqb c n)) script_columns) [].

(** The columns the script reads without a presence guard. *)
Definition unguarded : list string :=
  ["timestamp_ms"; "air_temp_c"; "track_temp_c"; "battery_soc"; "fuel_kg"].

Definition pk_row (e s c : string) (lap : Z) : row :=
  [("event_id", VString e); ("session", VString s); ("car_no", VString c);
   ("lap", VLong lap)].

(** Four rows, two of which share their key tuple. *)
Definition dup_frame : frame :=
  mkFrame pk [pk_row "E1" "race" "7" 1; pk_row "E1" "race" "7" 2;
              pk_row "E1" "race" "7" 2; pk_row "E1" "race" "9" 2].

(** The row [groupBy(...).count()] emits for the key tuple [k]. *)
Definition group_row (keys : list (list cell)) (k : list cell) : row :=
  combine pk k ++ [("count", VLong (Z.of_nat (count_occ key_eq_dec keys k)))].

(** [select] of the columns [names] on one row, as the dictionary
    [asDict()] returns. *)
Definition project (names : list string) (r : row) : row :=
  map (fun c => (c, get c r)) names.

(** The claim's words for the sequence checks: in a partition taken in
    lap order, a row is a violation when its value is strictly less than
    the value of the row immediately before it; the first row has no
    predecessor. *)
Definition is_drop (prev cur : option Z) : bool :=
  match prev, cur with
  | Some a, Some b => b <? a
  | _, _ => false
  end.

Fixpoint drops_from (prev : option Z) (vals : list (option Z)) : list bool :=
  match vals with
  | [] => []
  | v :: vs => is_drop prev v :: drops_from v vs
  end.

Definition drops (vals : list (option Z)) : list bool := drops_from None vals.

Fixpoint ascending (prev : option Z) (vals : list (option Z)) : Prop :=
  match vals with
  | [] => True
  | v :: vs => ord_leb prev v = true /\ ascending v vs
  end.

Definition car_keys : list string := ["event_id"; "session"; "car_no"].

Definition lap_of {E : Engine} (r : row) : option Z := cast_long (get "lap" r).

Definition ts_of {E : Engine} (r : row) : option Z :=
  cast_long (get "timestamp_ms" r).

(** The window partitions of a frame: the rows of each car, in lap
    order. *)
Definition lap_ordered {E : Engine} (df : frame) : list (list row) :=
  map (sort lap_of) (partitions (key_of car_keys) (rows df)).

(** A row of [d2] is reported by the lap check, by the timestamp check. *)
Definition flagged_lap (x : row) : bool :=
  holds (back_cond (get "lap_long" x) (get "prev_lap" x)).

Definition flagged_ts (x : row) : bool :=
  holds (back_cond (get "ts_long" x) (get "prev_ts" x)).

(** A row with its two derived columns. *)
Definition extend {E : Engine} (r : row) : row :=
  put "ts_long" (cell_of_long (ts_of r))
    (put "lap_long" (cell_of_long (lap_of r)) r).

(** The frame [d2] when the five columns are present. *)
Definition window_frame {E : Engine} (df : frame) : frame :=
  lag_window car_keys lap_of "lap_long" "prev_lap" "ts_long" "prev_ts"
    (mkFrame (put_col "ts_long" (put_col "lap_long" (columns df)))
             (map extend (rows df))).

Definition lagged (prev1 prev2 : cell) (rs : list row) : list row :=
  lag_rows "lap_long" "prev_lap" "ts_long" "prev_ts" prev1 prev2 rs.

Definition seq_row (lap ts : cell) : row :=
  [("event_id", VString "E1"); ("session", VString "race");
   ("car_no", VString "7"); ("lap", lap); ("timestamp_ms", ts)].

(** One car, laps 1, 2, 3, 2, 5 in input order, timestamps increasing in
    input order. *)
Definition laps_frame : frame :=
  mkFrame need
    [seq_row (VLong 1) (VLong 100); seq_row (VLong 2) (VLong 200);
     seq_row (VLong 3) (VLong 300); seq_row (VLong 2) (VLong 400);
     seq_row (VLong 5) (VLong 500)].

(** One car, two laps, the second row without a timestamp. *)
Definition null_ts_frame : frame :=
  mkFrame need
    [seq_row (VLong 1) (VLong 100); seq_row (VLong 2) VNull].

Definition full_row (lap ts : Z) (tyre : string) (air fuel sensor : Z) : row :=
  [("event_id", VString "E1"); ("session", VString "race"); ("lap", VLong lap);
   ("timestamp_ms", VLong ts); ("driver", VString "A"); ("team", VString "T");
   ("car_no", VString "7"); ("tyre", VString tyre); ("air_temp_c", VLong air);
   ("track_temp_c", VLong 40); ("battery_soc", VLong 30);
   ("fuel_kg", VLong fuel); ("sensor_0008_val", VLong sensor)].

(** A frame with every column of the script and two laps of one car. *)
Definition full_frame : frame :=
  mkFrame script_columns
    [full_row 1 1700000000000 "Soft" 25 50 120;
     full_row 2 1699999999999 " Wet " 31 (-1) 50].

(** What every result of a report satisfies: the status reflects the
    count, the sample is bounded by 20 and by the count, and an export
    path exists only for a positive count, under the name of the check. *)
Definition result_ok (r : check_result) : Prop :=
  (status r = PASS <-> violations r = 0) /\
  0 <= violations r /\
  (List.length (sample r) <= 20)%nat /\
  Z.of_nat (List.length (sample r)) <= violations r /\
  (forall p, csv r = Some p ->
     0 < violations r /\ p = (out_dir ++ "/violations/" ++ name r)%string).

(** A frame whose timestamp column is spelled with capitals. *)
Definition cased_frame : frame :=
  mkFrame ["event_id"; "session"; "car_no"; "lap"; "Timestamp_MS"]
    [[("event_id", VString "E1"); ("session", VString "race");
      ("car_no", VString "7"); ("lap", VLong 1);
      ("Timestamp_MS", VLong 1700000000000)];
     [("event_id", VString "E1"); ("session", VString "race");
      ("car_no", VString "7"); ("lap", VLong 2);
      ("Timestamp_MS", VLong 17)]].

(** A frame with two columns that differ by case only. *)
Definition twin_frame : frame :=
  mkFrame ["tyre"; "Tyre"] [[("tyre", VString "Soft"); ("Tyre", VString "Hard")]].

(** The lower-cased domain of the tyre check. *)
Definition tyre_domain : list string :=
  ["soft"; "medium"; "hard"; "wet"; "intermediate"].

(** A frame for the track, fuel and tyre checks. *)
Definition pit_frame : frame :=
  mkFrame ["track_temp_c"; "fuel_kg"; "tyre"; "timestamp_ms"]
    [[("track_temp_c", VLong 40); ("fuel_kg", VDouble DNaN);
      ("tyre", VString "SOFT"); ("timestamp_ms", VLong 1700000000000)];
     [("track_temp_c", VLong 81); ("fuel_kg", VLong (-1));
      ("tyre", VNull); ("timestamp_ms", VLong (-1700000000000))]].

(** ** Column names before the checks: [clean_cols] *)

(** Python strings are sequences of code points. *)
Definition pystr : Type := list N.

Definition BOM : N := 65279%N.

Definition underscore : N := 95%N.

(** The white space of [str.strip] and of the class [\s] of [re] on
    [str] patterns (both test [Py_UNICODE_ISSPACE]). *)
Definition py_isspace (c : N) : bool :=
  ((9 <=? c) && (c <=? 13) || (28 <=? c) && (c <=? 32) ||
   (c =? 133) || (c =? 160) || (c =? 5760) ||
   (8192 <=? c) && (c <=? 8202) || (c =? 8232) || (c =? 8233) ||
   (c =? 8239) || (c =? 8287) || (c =? 12288))%N.

(** [c.replace("\ufeff", "")]: the code point U+FEFF is removed. *)
Definition replace_bom (s : pystr) : pystr :=
  filter (fun c => negb (c =? BOM)%N) s.

Fixpoint lstrip (s : pystr) : pystr :=
  match s with
  | [] => []
  | c :: s' => if py_isspace c then lstrip s' else s
  end.

Definition rstrip (s : pystr) : pystr := rev (lstrip (rev s)).

(** [.strip()] *)
Definition strip (s : pystr) : pystr := rstrip (lstrip s).

(** [re.sub(r"\s+", "_", n)]: every maximal run of white space becomes one
    underscore; [in_run] tells that the run was already replaced. *)
Fixpoint sub_spaces (in_run : bool) (s : pystr) : pystr :=
  match s with
  | [] => []
  | c :: s' =>
      if py_isspace c
      then (if in_run then sub_spaces true s' else underscore :: sub_spaces true s')
      else c :: sub_spaces false s'
  end.

Definition clean_name (c : pystr) : pystr :=
  let n := strip (replace_bom c) in
  sub_spaces false n.

(** The list [names] that [clean_cols] hands to [df.toDF], which renames
    the columns by position. *)
Definition clean_cols (columns : list pystr) : list pystr :=
  map clean_name columns.

(** A code point a cleaned name may hold. *)
Definition plain (c : N) : Prop := py_isspace c = false /\ c <> BOM.

(** ** The sample table: [html_table] *)

Definition dquote : ascii := ascii_of_nat 34.

(** [s.replace(c, rep)] for a pattern of one character. *)
Fixpoint replace_char (c : ascii) (rep : string) (s : string) : string :=
  match s with
  | EmptyString => EmptyString
  | String a s' =>
      if Ascii.eqb a c then (rep ++ replace_char c rep s')%string
      else String a (replace_char c rep s')
  end.

(** Python's [html.escape(s)], [quote=True]: five replacements, the
    ampersand first. *)
Definition html_escape (s : string) : string :=
  let s := replace_char "&" "&amp;" s in
  let s := replace_char "<" "&lt;" s in
  let s := replace_char ">" "&gt;" s in
  let s := replace_char dquote "&quot;" s in
  replace_char "'" "&#x27;" s.

(** The keys of the rows, for a call without column list; Python takes
    them from a set, in no fixed order. *)
Definition keys_of (rows : list row) : list string :=
  nodup string_dec (flat_map (map fst) rows).

(** The number of occurrences of a character. *)
Fixpoint occ (c : ascii) (s : string) : nat :=
  match s with
  | EmptyString => 0
  | String a s' => (if Ascii.eqb a c then 1 else 0) + occ c s'
  end.

Section Table.
(** [str] of a Python float, which the script does not define. *)
Variable float_str : double -> string.

Definition safe_str (v : cell) : string :=
  match v with
  | VNull => ""
  | VLong z => long_to_string z
  | VDouble d => float_str d
  | VString s => s
  end.

Definition html_table (rows : list row) (cols : list string) : string :=
  match rows with
  | [] => "<em>No sample rows</em>"
  | _ :: _ =>
      let cols := match cols with [] => keys_of rows | _ :: _ => cols end in
      let head :=
        String.concat ""
          (map (fun c => "<th>" ++ html_escape c ++ "</th>")%string cols) in
      let body :=
        map (fun r =>
               let tds :=
                 String.concat ""
                   (map (fun c => "<td>" ++ html_escape (safe_str (get c r))
                                   ++ "</td>")%string cols) in
               ("<tr>" ++ tds ++ "</tr>")%string) rows in
      ("<table class='mini'><thead><tr>" ++ head ++ "</tr></thead><tbody>" ++
       String.concat "" body ++ "</tbody></table>")%string
  end.
End Table.

(** * Properties *)

(** ** Three-valued logic and filters *)

Lemma holds_or3 (a b : tri) :
  holds (or3 a b) = true <-> holds a = true \/ holds b = true.
Proof.
  destruct a as [[|]|], b as [[|]|]; simpl; intuition discriminate.
Qed.

Lemma holds_and3 (a b : tri) :
  holds (and3 a b) = true <-> holds a = true /\ holds b = true.
Proof.
  destruct a as [[|]|], b as [[|]|]; simpl; intuition discriminate.
Qed.

Lemma holds_Some (b : bool) : holds (Some b) = b.
Proof. destruct b; reflexivity. Qed.

Lemma where_In (cond : row -> tri) (f : frame) (r : row) :
  In r (rows (where_ cond f)) <-> In r (rows f) /\ holds (cond r) = true.
Proof. unfold where_; simpl. apply filter_In. Qed.

Lemma double_ltb_lt (x y : double) : double_ltb x y = true <-> double_lt x y.
Proof.
  unfold double_ltb, double_lt.
  destruct (double_compare x y); intuition discriminate.
Qed.

Lemma double_compare_antisym (x y : double) :
  double_compare y x = CompOpp (double_compare x y).
Proof.
  destruct x, y; simpl; try reflexivity.
  unfold Qccompare. symmetry. apply Qcompare_antisym.
Qed.

Lemma double_gtb_lt (x y : double) : double_gtb x y = true <-> double_lt y x.
Proof.
  unfold double_gtb, double_lt. rewrite (double_compare_antisym x y).
  destruct (double_compare x y); simpl; intuition discriminate.
Qed.

Lemma double_geb_not_lt (x y : double) : double_geb x y = negb (double_ltb x y).
Proof. unfold double_geb, double_ltb. destruct (double_compare x y); reflexivity. Qed.

Lemma double_leb_not_gt (x y : double) : double_leb x y = negb (double_gtb x y).
Proof. unfold double_leb, double_gtb. destruct (double_compare x y); reflexivity. Qed.

Section RangeFacts.
Context {E : Engine}.

Lemma cast_double_null : cast_double VNull = None.
Proof. reflexivity. Qed.

Lemma range_cond_iff (lo hi : double) (c : cell) :
  holds (range_cond lo hi c) = true <-> out_of_range lo hi c.
Proof.
  unfold range_cond, out_of_range.
  rewrite !holds_or3.
  destruct (cast_double c) as [d|] eqn:Hc; unfold isNull, lift2.
  - rewrite !holds_Some, double_ltb_lt, double_gtb_lt. split.
    + intros [[H|H]|H]; try discriminate; right; right; exists d; auto.
    + intros [H|[H|[d' [Hd H]]]].
      * subst c. discriminate.
      * discriminate.
      * injection Hd as <-. destruct H; auto.
  - split; auto.
Qed.

Lemma floor_cond_null (lo : double) (c : cell) :
  cast_double c = None -> holds (floor_cond lo c) = true.
Proof. unfold floor_cond. intros ->. reflexivity. Qed.

Lemma wet_cond_iff (tyre sensor : cell) :
  holds (wet_cond tyre sensor) = true <->
  wet tyre /\ out_of_range (double_of_Z 100) (double_of_Z 250) sensor.
Proof.
  unfold wet_cond, wet, is_wet, between, out_of_range.
  rewrite holds_and3, holds_or3.
  assert (Hw : holds (lift2 String.eqb
                 (option_map lower (option_map trim (cast_string tyre)))
                 (Some "wet")) = true <->
               exists s, cast_string tyre = Some s /\ lower (trim s) = "wet").
  { destruct (cast_string tyre) as [s|]; simpl.
    - destruct (String.eqb_spec (lower (trim s)) "wet") as [He|He].
      + split; auto. intros _. exists s; auto.
      + split; [discriminate|]. intros [s' [Hs H]]. injection Hs as <-. contradiction.
    - split; [discriminate|]. intros [s [Hs _]]. discriminate. }
  rewrite Hw. clear Hw.
  destruct (cast_double sensor) as [d|] eqn:Hc; simpl.
  - rewrite double_geb_not_lt, double_leb_not_gt.
    assert (Hb : holds (not3 (and3 (Some (negb (double_ltb d (double_of_Z 100))))
                                   (Some (negb (double_gtb d (double_of_Z 250)))))) = true
                 <-> double_lt d (double_of_Z 100) \/ double_lt (double_of_Z 250) d).
    { rewrite <- double_ltb_lt, <- double_gtb_lt.
      destruct (double_ltb d (double_of_Z 100)), (double_gtb d (double_of_Z 250));
        simpl; intuition discriminate. }
    split.
    + intros [Ht [H|H]]; [discriminate|]. split; auto.
      right; right. exists d. split; auto. apply Hb, H.
    + intros [Ht [H|[H|[d' [Hd H]]]]].
      * subst sensor. discriminate.
      * discriminate.
      * injection Hd as <-. split; auto. right. apply Hb, H.
  - split.
    + intros [Ht _]. auto.
    + intros [Ht _]. auto.
Qed.
End RangeFacts.

(** ** Range checks *)

(** C5. With the column [air_temp_c] in the frame, a row is reported by
    the range check on [[0, 30]] exactly when its value is null, does not
    coerce to a number or lies outside the bounds, which are inclusive;
    the same characterisation holds for every pair of bounds.  On the
    values -1, 0, 15, 30, 31 and null the rows reported are those of -1,
    31 and null. *)
Theorem range_check_violation_iff {E : Engine} (df : frame) (c : string) :
  resolve "air_temp_c" (columns df) = Ok c ->
  (exists bad, bad_air df = Ok bad /\
     forall r, In r (rows bad) <->
       In r (rows df) /\
       out_of_range (double_of_Z 0) (double_of_Z 30) (get c r)) /\
  (forall lo hi x, holds (range_cond lo hi x) = true <-> out_of_range lo hi x) /\
  (exists bad, bad_air air_frame = Ok bad /\
     rows bad = map air_row [VLong (-1); VLong 31; VNull]).
Proof.
  intros Hc. split; [|split].
  - unfold bad_air. rewrite Hc. simpl. eexists. split; [reflexivity|].
    intros r. rewrite where_In, range_cond_iff. reflexivity.
  - intros lo hi x. apply range_cond_iff.
  - eexists. split; reflexivity.
Qed.

Lemma range_check_violation_iff_witness :
  resolve "air_temp_c" (columns air_frame) = Ok "air_temp_c" /\
  ((exists bad, bad_air (E := reference_engine) air_frame = Ok bad /\
      forall r, In r (rows bad) <->
        In r (rows air_frame) /\
        out_of_range (double_of_Z 0) (double_of_Z 30) (get "air_temp_c" r)) /\
   (forall lo hi x, holds (range_cond lo hi x) = true <-> out_of_range lo hi x) /\
   (exists bad, bad_air (E := reference_engine) air_frame = Ok bad /\
      rows bad = map air_row [VLong (-1); VLong 31; VNull])).
Proof.
  split.
  - reflexivity.
  - apply (range_check_violation_iff (E := reference_engine) air_frame "air_temp_c").
    reflexivity.
Defined.

(** ** Conditional check *)

(** C7. With the columns [tyre] and [sensor_0008_val] in the frame, the
    conditional check reports a row exactly when its tyre reads "wet"
    after trimming and case folding and its sensor value is null, not a
    number or outside [[100, 250]]; a row whose antecedent does not hold
    is never reported.  In the sample frame the row (dry, 9999) is not
    reported, the rows (" WET ", 50) and (Wet, null) are. *)
Theorem conditional_check_material_implication {E : Engine}
    (df : frame) (t s : string) :
  resolve "tyre" (columns df) = Ok t ->
  resolve "sensor_0008_val" (columns df) = Ok s ->
  (exists bad, bad_wet df = Ok bad /\
     (forall r, In r (rows bad) <->
        In r (rows df) /\ wet (get t r) /\
        out_of_range (double_of_Z 100) (double_of_Z 250) (get s r)) /\
     (forall r, ~ wet (get t r) -> ~ In r (rows bad))) /\
  holds (wet_cond (VString "dry") (VLong 9999)) = false /\
  (exists bad, bad_wet wet_frame = Ok bad /\
     rows bad = [wet_row (VString " WET ") (VLong 50);
                 wet_row (VString "Wet") VNull]).
Proof.
  intros Ht Hs. split; [|split].
  - unfold bad_wet. rewrite Ht, Hs. simpl. eexists. split; [reflexivity|].
    split.
    + intros r. rewrite where_In, wet_cond_iff. reflexivity.
    + intros r Hnw Hin. apply where_In in Hin. destruct Hin as [_ Hin].
      apply wet_cond_iff in Hin. tauto.
  - reflexivity.
  - eexists. split; reflexivity.
Qed.

Lemma conditional_check_material_implication_witness :
  resolve "tyre" (columns wet_frame) = Ok "tyre" /\
  resolve "sensor_0008_val" (columns wet_frame) = Ok "sensor_0008_val" /\
  ((exists bad, bad_wet (E := reference_engine) wet_frame = Ok bad /\
      (forall r, In r (rows bad) <->
         In r (rows wet_frame) /\ wet (get "tyre" r) /\
         out_of_range (double_of_Z 100) (double_of_Z 250)
           (get "sensor_0008_val" r)) /\
      (forall r, ~ wet (get "tyre" r) -> ~ In r (rows bad))) /\
   holds (wet_cond (E := reference_engine) (VString "dry") (VLong 9999)) = false /\
   (exists bad, bad_wet (E := reference_engine) wet_frame = Ok bad /\
      rows bad = [wet_row (VString " WET ") (VLong 50);
                  wet_row (VString "Wet") VNull])).
Proof.
  split; [reflexivity|]. split; [reflexivity|].
  apply (conditional_check_material_implication (E := reference_engine)
           wet_frame "tyre" "sensor_0008_val"); reflexivity.
Defined.

(** ** Timestamp format *)

Lemma take_drop (n : nat) (s : string) : (take n s ++ drop n s)%string = s.
Proof.
  revert s. induction n as [|n IH]; intros s; [reflexivity|].
  destruct s as [|c s]; [reflexivity|]. simpl. rewrite IH. reflexivity.
Qed.

Lemma append_empty_r (s : string) : (s ++ "")%string = s.
Proof. induction s as [|c s IH]; simpl; [reflexivity|]. rewrite IH. reflexivity. Qed.

Lemma drop_nonempty_length (n : nat) (s : string) :
  drop n s <> "" -> String.length s <> n.
Proof.
  revert s. induction n as [|n IH]; intros s H.
  - destruct s; simpl in *; congruence.
  - destruct s as [|c s]; simpl in *; [congruence|].
    intros Hl. apply (IH s H). lia.
Qed.

(** Away from a trailing line terminator the pattern means what the name
    of the check says. *)
Lemma rlike_13_digits_exact (s : string) :
  ~ In (drop 13 s) line_terminators ->
  rlike_13_digits s = exactly_13_digits s.
Proof.
  intros Ht. unfold rlike_13_digits, exactly_13_digits, java_dollar.
  destruct (String.eqb_spec (drop 13 s) "") as [He|Hne].
  - pose proof (take_drop 13 s) as Htd. rewrite He, append_empty_r in Htd.
    rewrite Htd. simpl. rewrite andb_true_r. reflexivity.
  - assert (Hx : existsb (String.eqb (drop 13 s)) line_terminators = false).
    { apply not_true_is_false. intros H. apply existsb_exists in H.
      destruct H as [t [Hin Heq]]. apply String.eqb_eq in Heq. subst t.
      contradiction. }
    rewrite Hx. simpl. rewrite andb_false_r.
    apply drop_nonempty_length in Hne.
    apply Nat.eqb_neq in Hne. rewrite Hne. reflexivity.
Qed.

Section TimestampFacts.
Context {E : Engine}.

Lemma ts_cond_iff (c : cell) :
  holds (ts_cond c) = true <->
  c = VNull \/ exists s, cast_string c = Some s /\ rlike_13_digits s = false.
Proof.
  unfold ts_cond. rewrite holds_or3, holds_Some.
  destruct c as [|z|d|s]; simpl.
  - split; auto.
  - destruct (rlike_13_digits (long_to_string z)) eqn:Hr; simpl.
    + split; [intros [H|H]; discriminate|].
      intros [H|[s [Hs H]]]; [discriminate|]. injection Hs as <-. congruence.
    + split; auto. intros _. right. eexists; eauto.
  - destruct (rlike_13_digits (double_to_string d)) eqn:Hr; simpl.
    + split; [intros [H|H]; discriminate|].
      intros [H|[s [Hs H]]]; [discriminate|]. injection Hs as <-. congruence.
    + split; auto. intros _. right. eexists; eauto.
  - destruct (rlike_13_digits s) eqn:Hr; simpl.
    + split; [intros [H|H]; discriminate|].
      intros [H|[s' [Hs H]]]; [discriminate|]. injection Hs as <-. congruence.
    + split; auto. intros _. right. eexists; eauto.
Qed.
End TimestampFacts.

(** C10. The check is named after thirteen digits, and null, 12-digit and
    14-digit timestamps are reported; but the pattern ends in [$], which
    also accepts the position before one final line terminator: the string
    of thirteen digits followed by U+2028 is not thirteen digits and is
    not reported. *)
Theorem timestamp_check_accepts_trailing_terminator {E : Engine} :
  exactly_13_digits ts_with_terminator = false /\
  holds (ts_cond (VString ts_with_terminator)) = false /\
  (exists bad, bad_ts ts_frame = Ok bad /\
     rows bad = map ts_row [VLong 123456789012; VLong 12345678901234; VNull]) /\
  (exists rs, check_ts [] ts_frame = Ok rs /\
     map name rs = ["timestamp_ms_is_13_digits"] /\ map violations rs = [3]).
Proof.
  split; [reflexivity|]. split; [reflexivity|]. split.
  - eexists. split; reflexivity.
  - eexists. split; [reflexivity|]. split; reflexivity.
Qed.

(** ** Tyre domain *)

(** C8. The domain check folds case but does not trim, although the
    conditional check trims the same column: the value " Wet " is wet for
    the conditional check and a violation of the domain check. *)
Theorem tyre_domain_does_not_trim {E : Engine} :
  is_wet (VString " Wet ") = Some true /\
  holds (tyre_cond (VString " Wet ")) = true /\
  holds (tyre_cond (VString "Wet")) = false /\
  (exists bad, bad_tyre tyre_frame = Ok bad /\
     rows bad = map tyre_row [VString " Wet "; VString "slick"]) /\
  (exists rs, check_tyre [] tyre_frame = Ok rs /\
     map violations rs = [2] /\ map status rs = [FAIL]).
Proof.
  split; [reflexivity|]. split; [reflexivity|]. split; [reflexivity|]. split.
  - eexists. split; reflexivity.
  - eexists. split; [reflexivity|]. split; reflexivity.
Qed.

(** ** Missing columns *)

(** C3. The checks on the key, the sequence, the wet tyre and the tyre
    domain test for their columns and report one synthetic violation when
    one is missing; the timestamp-format check and the range checks do
    not: without [timestamp_ms] or without [air_temp_c] the run stops with
    an analysis error and reports nothing. *)
Theorem unguarded_checks_abort_the_run {E : Engine} :
  run (frame_without "timestamp_ms") = Err (Unresolved "timestamp_ms") /\
  run (frame_without "air_temp_c") = Err (Unresolved "air_temp_c") /\
  check_ts [] (frame_without "timestamp_ms") = Err (Unresolved "timestamp_ms") /\
  (exists rs, check_pk [] (frame_without "lap") = Ok rs /\
     map violations rs = [1] /\
     map note rs = ["Missing PK cols: {'lap'}"]) /\
  (exists rs, check_tyre [] (frame_without "tyre") = Ok rs /\
     map violations rs = [1] /\ map note rs = ["missing tyre"]).
Proof.
  split; [reflexivity|]. split; [reflexivity|]. split; [reflexivity|]. split.
  - eexists. split; [reflexivity|]. split; reflexivity.
  - eexists. split; [reflexivity|]. split; reflexivity.
Qed.

(** ** Name resolution and row updates *)

Lemma ci_eqb_eq (a b : string) : ci_eqb a b = true <-> lower a = lower b.
Proof. unfold ci_eqb. apply String.eqb_eq. Qed.

Lemma ci_eqb_refl (a : string) : ci_eqb a a = true.
Proof. apply ci_eqb_eq. reflexivity. Qed.

Lemma ci_eqb_sym (a b : string) : ci_eqb a b = ci_eqb b a.
Proof. unfold ci_eqb. apply String.eqb_sym. Qed.

Lemma ci_eqb_false_trans (n m c : string) :
  ci_eqb n m = false -> ci_eqb m c = true -> ci_eqb n c = false.
Proof.
  intros Hnm Hmc. apply ci_eqb_eq in Hmc.
  unfold ci_eqb in *. rewrite <- Hmc. exact Hnm.
Qed.

Lemma filter_ci_none (n : string) (cols : list string) :
  ~ In (lower n) (map lower cols) -> filter (ci_eqb n) cols = [].
Proof.
  induction cols as [|a cols IH]; simpl; intros Hn; [reflexivity|].
  destruct (ci_eqb n a) eqn:Ha.
  - apply ci_eqb_eq in Ha. exfalso. apply Hn. left. symmetry. exact Ha.
  - apply IH. intros H. apply Hn. right. exact H.
Qed.

Lemma filter_ci_exact (n : string) (cols : list string) :
  NoDupCI cols -> In n cols -> filter (ci_eqb n) cols = [n].
Proof.
  unfold NoDupCI.
  induction cols as [|a cols IH]; simpl; intros Hnd Hin; [contradiction|].
  inversion Hnd as [|x l Hna Hnd']; subst.
  destruct Hin as [->|Hin].
  - rewrite ci_eqb_refl. f_equal. apply filter_ci_none. exact Hna.
  - destruct (ci_eqb n a) eqn:Ha.
    + apply ci_eqb_eq in Ha. exfalso. apply Hna. rewrite <- Ha.
      apply in_map. exact Hin.
    + apply IH; assumption.
Qed.

Lemma resolve_exact (n : string) (cols : list string) :
  NoDupCI cols -> In n cols -> resolve n cols = Ok n.
Proof. intros Hnd Hin. unfold resolve. rewrite filter_ci_exact; auto. Qed.

Lemma resolve_Ok_inv (n c : string) (cols : list string) :
  resolve n cols = Ok c -> In c cols /\ ci_eqb n c = true.
Proof.
  unfold resolve. intros H.
  destruct (filter (ci_eqb n) cols) as [|x [|y l]] eqn:Hf; try discriminate.
  injection H as <-.
  assert (Hx : In x (filter (ci_eqb n) cols)) by (rewrite Hf; left; reflexivity).
  apply filter_In in Hx. exact Hx.
Qed.

Lemma filter_put_col_other (n m : string) (cols : list string) :
  ci_eqb n m = false ->
  filter (ci_eqb n) (put_col m cols) = filter (ci_eqb n) cols.
Proof.
  intros Hnm. unfold put_col.
  destruct (existsb (ci_eqb m) cols).
  - induction cols as [|a cols IH]; simpl; [reflexivity|].
    destruct (ci_eqb m a) eqn:Hma.
    + rewrite Hnm. rewrite (ci_eqb_false_trans n m a Hnm Hma). exact IH.
    + destruct (ci_eqb n a); rewrite IH; reflexivity.
  - rewrite filter_app. simpl. rewrite Hnm. apply app_nil_r.
Qed.

Lemma resolve_put_col_other (n m : string) (cols : list string) :
  ci_eqb n m = false -> resolve n (put_col m cols) = resolve n cols.
Proof. intros H. unfold resolve. rewrite filter_put_col_other; auto. Qed.

Lemma map_lower_put_col_in (m : string) (cols : list string) :
  map lower (map (fun c => if ci_eqb m c then m else c) cols) = map lower cols.
Proof.
  induction cols as [|a cols IH]; simpl; [reflexivity|].
  rewrite IH. destruct (ci_eqb m a) eqn:Hma; [|reflexivity].
  apply ci_eqb_eq in Hma. rewrite Hma. reflexivity.
Qed.

Lemma existsb_ci_false (m : string) (cols : list string) :
  existsb (ci_eqb m) cols = false -> ~ In (lower m) (map lower cols).
Proof.
  induction cols as [|a cols IH]; simpl; intros H; [tauto|].
  apply orb_false_iff in H. destruct H as [Ha Hr].
  intros [Heq|Hin].
  - symmetry in Heq. apply ci_eqb_eq in Heq. congruence.
  - apply IH in Hr. contradiction.
Qed.

Lemma NoDup_snoc {A : Type} (l : list A) (x : A) :
  NoDup l -> ~ In x l -> NoDup (l ++ [x]).
Proof.
  induction l as [|a l IH]; simpl; intros Hnd Hx.
  - constructor; [tauto|constructor].
  - inversion Hnd as [|y l' Ha Hl]; subst. constructor.
    + intros H. apply in_app_or in H. destruct H as [H|[H|[]]]; [tauto|].
      apply Hx. left. symmetry. exact H.
    + apply IH; tauto.
Qed.

Lemma NoDupCI_put_col (m : string) (cols : list string) :
  NoDupCI cols -> NoDupCI (put_col m cols).
Proof.
  unfold NoDupCI, put_col. intros Hnd.
  destruct (existsb (ci_eqb m) cols) eqn:He.
  - rewrite map_lower_put_col_in. exact Hnd.
  - rewrite map_app. simpl. apply NoDup_snoc; [exact Hnd|].
    apply existsb_ci_false. exact He.
Qed.

Lemma In_put_col_same (m : string) (cols : list string) : In m (put_col m cols).
Proof.
  unfold put_col. destruct (existsb (ci_eqb m) cols) eqn:He.
  - apply existsb_exists in He. destruct He as [c [Hc Hm]].
    apply in_map_iff. exists c. rewrite Hm. auto.
  - apply in_or_app. right. left. reflexivity.
Qed.

Lemma In_put_col_other (m c : string) (cols : list string) :
  In c cols -> ci_eqb m c = false -> In c (put_col m cols).
Proof.
  intros Hin Hmc. unfold put_col. destruct (existsb (ci_eqb m) cols).
  - apply in_map_iff. exists c. rewrite Hmc. auto.
  - apply in_or_app. left. exact Hin.
Qed.

Lemma get_app_notin (n : string) (r r' : row) :
  ~ In n (map fst r) -> get n (r ++ r') = get n r'.
Proof.
  induction r as [|[k v] r IH]; simpl; intros H; [reflexivity|].
  destruct (String.eqb_spec n k) as [->|Hk]; [tauto|]. apply IH. tauto.
Qed.

Lemma get_app_in (n : string) (r r' : row) :
  In n (map fst r) -> get n (r ++ r') = get n r.
Proof.
  induction r as [|[k v] r IH]; simpl; intros H; [contradiction|].
  destruct (String.eqb_spec n k) as [->|Hk]; [reflexivity|].
  apply IH. destruct H; [congruence|assumption].
Qed.

Lemma get_put_other (n m : string) (v : cell) (r : row) :
  ci_eqb m n = false -> get n (put m v r) = get n r.
Proof.
  intros Hmn. unfold put.
  assert (Hne : String.eqb n m = false).
  { destruct (String.eqb_spec n m) as [->|]; [|reflexivity].
    rewrite ci_eqb_refl in Hmn. discriminate. }
  destruct (existsb _ r).
  - induction r as [|[k w] r IH]; simpl; [reflexivity|].
    destruct (ci_eqb m k) eqn:Hmk; simpl.
    + rewrite Hne.
      destruct (String.eqb_spec n k) as [->|]; [congruence|]. exact IH.
    + rewrite IH. reflexivity.
  - induction r as [|[k w] r IH]; simpl.
    + rewrite Hne. reflexivity.
    + rewrite IH. reflexivity.
Qed.

Lemma get_put_same (m : string) (v : cell) (r : row) :
  get m (put m v r) = v.
Proof.
  unfold put. destruct (existsb _ r) eqn:He.
  - induction r as [|[k w] r IH]; simpl in *; [discriminate|].
    destruct (ci_eqb m k) eqn:Hmk; simpl.
    + rewrite String.eqb_refl. reflexivity.
    + destruct (String.eqb_spec m k) as [->|].
      * rewrite ci_eqb_refl in Hmk. discriminate.
      * apply IH. exact He.
  - induction r as [|[k w] r IH]; simpl in *.
    + rewrite String.eqb_refl. reflexivity.
    + apply orb_false_iff in He. destruct He as [Hmk He].
      destruct (String.eqb_spec m k) as [->|].
      * rewrite ci_eqb_refl in Hmk. discriminate.
      * apply IH. exact He.
Qed.

(** ** Grouping *)

Lemma all_present_In (names cols : list string) :
  all_present names cols = true -> forall c, In c names -> In c cols.
Proof.
  unfold all_present, has_col. intros H c Hc.
  rewrite forallb_forall in H. specialize (H c Hc).
  apply existsb_exists in H. destruct H as [x [Hx He]].
  apply String.eqb_eq in He. subst. exact Hx.
Qed.

Lemma resolve_all_exact (names cols : list string) :
  NoDupCI cols -> (forall c, In c names -> In c cols) ->
  resolve_all names cols = Ok names.
Proof.
  intros Hnd. induction names as [|n names IH]; simpl; intros Hin; [reflexivity|].
  rewrite (resolve_exact n cols Hnd) by (apply Hin; left; reflexivity).
  simpl. rewrite IH by (intros c Hc; apply Hin; right; exact Hc).
  reflexivity.
Qed.

Lemma In_remove_iff (k x : list cell) (l : list (list cell)) :
  In x (remove key_eq_dec k l) <-> In x l /\ x <> k.
Proof.
  split.
  - apply in_remove.
  - intros [H1 H2]. apply in_in_remove; assumption.
Qed.

Lemma NoDup_remove_key (k : list cell) (l : list (list cell)) :
  NoDup l -> NoDup (remove key_eq_dec k l).
Proof.
  induction l as [|a l IH]; simpl; intros H; [constructor|].
  inversion H as [|y l' Ha Hl]; subst.
  destruct (key_eq_dec k a); [auto|].
  constructor; [|auto]. intros Hin. apply In_remove_iff in Hin. tauto.
Qed.

Lemma In_distinct (x : list cell) (l : list (list cell)) :
  In x (distinct l) <-> In x l.
Proof.
  induction l as [|k l IH]; simpl; [tauto|].
  rewrite In_remove_iff, IH.
  destruct (key_eq_dec x k) as [->|Hne]; [tauto|].
  split; [tauto|]. intros [H|H]; [congruence|tauto].
Qed.

Lemma NoDup_distinct (l : list (list cell)) : NoDup (distinct l).
Proof.
  induction l as [|k l IH]; simpl; constructor.
  - intros H. apply In_remove_iff in H. tauto.
  - apply NoDup_remove_key. exact IH.
Qed.

Lemma filter_map_comm {A B : Type} (p : B -> bool) (f : A -> B) (l : list A) :
  filter p (map f l) = map f (filter (fun x => p (f x)) l).
Proof.
  induction l as [|a l IH]; simpl; [reflexivity|].
  destruct (p (f a)); simpl; rewrite IH; reflexivity.
Qed.

Lemma filter_none {A : Type} (p : A -> bool) (l : list A) :
  (forall x, In x l -> p x = false) -> filter p l = [].
Proof.
  induction l as [|a l IH]; simpl; intros H; [reflexivity|].
  rewrite (H a) by auto. apply IH. auto.
Qed.

Lemma filter_single {A : Type} (p : A -> bool) (l : list A) (k : A) :
  NoDup l -> In k l -> p k = true ->
  (forall x, In x l -> x <> k -> p x = false) ->
  filter p l = [k].
Proof.
  induction l as [|a l IH]; simpl; intros Hnd Hin Hk Hothers; [contradiction|].
  inversion Hnd as [|y l' Ha Hl]; subst.
  destruct Hin as [->|Hin].
  - rewrite Hk. f_equal. apply filter_none.
    intros x Hx. apply Hothers; [auto|]. intros ->. contradiction.
  - rewrite (Hothers a) by (auto; intros ->; contradiction).
    apply IH; auto.
Qed.

Lemma get_count_group (names : list string) (k : list cell) (v : cell) :
  ~ In "count" names ->
  get "count" (combine names k ++ [("count", v)]) = v.
Proof.
  intros Hn. rewrite get_app_notin.
  - reflexivity.
  - intros H. apply in_map_iff in H. destruct H as [[a b] [Ha Hin]].
    simpl in Ha. subst a. apply in_combine_l in Hin. contradiction.
Qed.

Lemma dupes_rows (df : frame) :
  all_present pk (columns df) = true -> NoDupCI (columns df) ->
  let keys := map (key_of pk) (rows df) in
  dupes df =
  Ok (mkFrame (pk ++ ["count"])
        (map (group_row keys)
           (filter (fun k => Z.of_nat (count_occ key_eq_dec keys k) >? 1)
                   (distinct keys)))).
Proof.
  intros Hp Hnd keys. unfold dupes.
  rewrite (resolve_all_exact pk (columns df) Hnd (all_present_In _ _ Hp)).
  assert (Hc : resolve "count" (columns (groupBy_count pk df)) = Ok "count")
    by reflexivity.
  cbv [bind]. rewrite Hc.
  unfold where_, groupBy_count. cbn [rows columns]. fold keys.
  f_equal. f_equal. rewrite filter_map_comm. f_equal.
  apply filter_ext. intros k.
  rewrite get_count_group.
  - cbn [long_of_cell lift2]. rewrite holds_Some. reflexivity.
  - unfold pk. simpl. intuition discriminate.
Qed.

Lemma add_result_groups (rs : list row) :
  let d := mkFrame (pk ++ ["count"]) rs in
  add_result [] "pk_unique" (OfFrame d) (pk ++ ["count"]) "" =
  Ok [mkResult "pk_unique" (count d) (if count d =? 0 then PASS else FAIL)
        (pk ++ ["count"]) (map (project (pk ++ ["count"])) (firstn 20 rs))
        (write_violations d "pk_unique") ""].
Proof. reflexivity. Qed.

Lemma count_occ_keys_le (keys : list (list cell)) :
  NoDup keys -> forall k, (count_occ key_eq_dec keys k <= 1)%nat.
Proof. intros H. apply (proj1 (NoDup_count_occ key_eq_dec keys)). exact H. Qed.

(** C1. With the four key columns in the frame, the uniqueness check
    reports one row per key tuple that occurs more than once, annotated
    with the number of occurrences: no duplicate key tuple gives 0
    violations, and exactly one duplicate pair gives 1 violation, whose
    sample row is the key tuple with count 2. *)
Theorem uniqueness_reports_one_row_per_group (df : frame) :
  all_present pk (columns df) = true ->
  NoDupCI (columns df) ->
  exists r, check_pk [] df = Ok [r] /\ name r = "pk_unique" /\
    (NoDup (map (key_of pk) (rows df)) ->
       violations r = 0 /\ status r = PASS /\ sample r = []) /\
    (forall k,
       count_occ key_eq_dec (map (key_of pk) (rows df)) k = 2%nat ->
       (forall k', k' <> k ->
          (count_occ key_eq_dec (map (key_of pk) (rows df)) k' <= 1)%nat) ->
       violations r = 1 /\ status r = FAIL /\
       sample r = [combine pk k ++ [("count", VLong 2)]]).
Proof.
  intros Hp Hnd. unfold check_pk. rewrite Hp.
  rewrite (dupes_rows df Hp Hnd). cbv [bind].
  set (keys := map (key_of pk) (rows df)).
  rewrite add_result_groups.
  eexists. split; [reflexivity|]. split; [reflexivity|]. split.
  - intros Hk. cbn [violations status sample].
    rewrite filter_none.
    + repeat split; reflexivity.
    + intros k _. pose proof (count_occ_keys_le keys Hk k). lia.
  - intros k Hk Hothers. cbn [violations status sample].
    rewrite (filter_single _ (distinct keys) k).
    + change (map (group_row keys) [k]) with [group_row keys k].
      unfold group_row. rewrite Hk.
      assert (Hin : In k keys).
      { apply (count_occ_In key_eq_dec). lia. }
      apply in_map_iff in Hin. destruct Hin as [r0 [<- _]].
      repeat split; reflexivity.
    + apply NoDup_distinct.
    + apply In_distinct. apply (count_occ_In key_eq_dec). lia.
    + rewrite Hk. reflexivity.
    + intros x _ Hx. pose proof (Hothers x Hx). lia.
Qed.

Lemma uniqueness_reports_one_row_per_group_witness :
  all_present pk (columns dup_frame) = true /\
  NoDupCI (columns dup_frame) /\
  exists r, check_pk [] dup_frame = Ok [r] /\
    name r = "pk_unique" /\
    (NoDup (map (key_of pk) (rows dup_frame)) ->
       violations r = 0 /\ status r = PASS /\ sample r = []) /\
    (forall k,
       count_occ key_eq_dec (map (key_of pk) (rows dup_frame)) k = 2%nat ->
       (forall k', k' <> k ->
          (count_occ key_eq_dec (map (key_of pk) (rows dup_frame)) k' <= 1)%nat) ->
       violations r = 1 /\ status r = FAIL /\
       sample r = [combine pk k ++ [("count", VLong 2)]]).
Proof.
  assert (Hnd : NoDupCI (columns dup_frame)).
  { unfold NoDupCI. simpl. repeat constructor; simpl; intuition discriminate. }
  split; [reflexivity|]. split; [exact Hnd|].
  apply (uniqueness_reports_one_row_per_group dup_frame).
  - reflexivity.
  - exact Hnd.
Defined.

(** In [dup_frame] one key tuple occurs twice: the check counts 1, not 2. *)
Lemma one_duplicate_pair_counts_once :
  exists r, check_pk [] dup_frame = Ok [r] /\
    count_occ key_eq_dec (map (key_of pk) (rows dup_frame))
      [VString "E1"; VString "race"; VString "7"; VLong 2] = 2%nat /\
    violations r = 1 /\ violations r <> 2 /\
    sample r = [pk_row "E1" "race" "7" 2 ++ [("count", VLong 2)]].
Proof.
  eexists. split; [reflexivity|]. split; [reflexivity|].
  split; [reflexivity|]. split; [discriminate|reflexivity].
Qed.

(** ** Windows *)

Lemma back_cond_is_drop (cur prev : cell) :
  holds (back_cond cur prev) = is_drop (long_of_cell prev) (long_of_cell cur).
Proof.
  unfold back_cond.
  destruct prev as [|a| |], cur as [|b| |]; simpl; try reflexivity.
  destruct (b <? a); reflexivity.
Qed.

Lemma long_of_cell_of_long (o : option Z) : long_of_cell (cell_of_long o) = o.
Proof. destruct o; reflexivity. Qed.

Lemma ord_leb_total (a b : option Z) : ord_leb a b = false -> ord_leb b a = true.
Proof.
  destruct a as [x|], b as [y|]; simpl; try congruence.
  intros H. apply Z.leb_gt in H. apply Z.leb_le. lia.
Qed.

Lemma insert_ascending (ord : row -> option Z) (r : row) (l : list row)
    (p : option Z) :
  ord_leb p (ord r) = true ->
  ascending p (map ord l) -> ascending p (map ord (insert ord r l)).
Proof.
  revert p. induction l as [|x l IH]; simpl; intros p Hp Hl.
  - auto.
  - destruct Hl as [Hx Hl].
    destruct (ord_leb (ord r) (ord x)) eqn:Hrx; simpl.
    + auto.
    + split; [exact Hx|]. apply IH; [|exact Hl].
      apply ord_leb_total. exact Hrx.
Qed.

Lemma sort_ascending (ord : row -> option Z) (l : list row) :
  ascending None (map ord (sort ord l)).
Proof.
  induction l as [|r l IH]; simpl; [exact I|].
  apply insert_ascending; [reflexivity|exact IH].
Qed.

Lemma ascending_no_drop (p : option Z) (vals : list (option Z)) :
  ascending p vals -> Forall (fun b => b = false) (drops_from p vals).
Proof.
  revert p. induction vals as [|v vs IH]; simpl; intros p H; constructor.
  - destruct H as [H _]. destruct p as [a|], v as [b|]; simpl in *; try reflexivity.
    apply Z.ltb_ge. apply Z.leb_le in H. exact H.
  - apply IH. tauto.
Qed.

Lemma insert_map (f : row -> row) (ord ord' : row -> option Z) (r : row)
    (l : list row) :
  (forall x, ord (f x) = ord' x) ->
  insert ord (f r) (map f l) = map f (insert ord' r l).
Proof.
  intros H. induction l as [|x l IH]; simpl; [reflexivity|].
  rewrite !H. destruct (ord_leb (ord' r) (ord' x)); simpl; [reflexivity|].
  rewrite IH. reflexivity.
Qed.

Lemma sort_map (f : row -> row) (ord ord' : row -> option Z) (l : list row) :
  (forall x, ord (f x) = ord' x) ->
  sort ord (map f l) = map f (sort ord' l).
Proof.
  intros H. induction l as [|x l IH]; simpl; [reflexivity|].
  rewrite IH. apply insert_map. exact H.
Qed.

Lemma partitions_map (f : row -> row) (key key' : row -> list cell)
    (l : list row) :
  (forall x, key (f x) = key' x) ->
  partitions key (map f l) = map (map f) (partitions key' l).
Proof.
  intros H. unfold partitions. rewrite map_map.
  rewrite (map_ext (fun x => key (f x)) key' H).
  rewrite map_map. apply map_ext. intros k.
  rewrite filter_map_comm. f_equal. apply filter_ext. intros x.
  rewrite H. reflexivity.
Qed.

Lemma flat_map_map {A B C : Type} (f : B -> list C) (g : A -> B) (l : list A) :
  flat_map f (map g l) = flat_map (fun x => f (g x)) l.
Proof.
  induction l as [|a l IH]; simpl; [reflexivity|]. rewrite IH. reflexivity.
Qed.

Lemma map_flat_map {A B C : Type} (f : A -> list B) (g : B -> C) (l : list A) :
  map g (flat_map f l) = flat_map (fun x => map g (f x)) l.
Proof.
  induction l as [|a l IH]; simpl; [reflexivity|].
  rewrite map_app, IH. reflexivity.
Qed.

Lemma filter_all_false {A : Type} (p : A -> bool) (l : list A) :
  Forall (fun b => b = false) (map p l) -> filter p l = [].
Proof.
  intros H. apply filter_none. intros x Hx.
  rewrite Forall_forall in H. apply H. apply in_map. exact Hx.
Qed.

Lemma Forall_flat_map {A B : Type} (P : B -> Prop) (f : A -> list B) (l : list A) :
  (forall x, In x l -> Forall P (f x)) -> Forall P (flat_map f l).
Proof.
  induction l as [|a l IH]; simpl; intros H; [constructor|].
  apply Forall_app. split; [apply H; auto|apply IH; auto].
Qed.

Section Sequence.
Context {E : Engine}.

Lemma get_extend (x : string) (r : row) :
  ci_eqb "ts_long" x = false -> ci_eqb "lap_long" x = false ->
  get x (extend r) = get x r.
Proof.
  intros H1 H2. unfold extend. rewrite !get_put_other by assumption.
  reflexivity.
Qed.

Lemma get_extend_lap_long (r : row) :
  get "lap_long" (extend r) = cell_of_long (lap_of r).
Proof.
  unfold extend. rewrite get_put_other by reflexivity. apply get_put_same.
Qed.

Lemma get_extend_ts_long (r : row) :
  get "ts_long" (extend r) = cell_of_long (ts_of r).
Proof. unfold extend. apply get_put_same. Qed.

Lemma d2_rows (df : frame) :
  all_present need (columns df) = true ->
  NoDupCI (columns df) ->
  d2 df =
  Ok (lag_window car_keys lap_of "lap_long" "prev_lap" "ts_long" "prev_ts"
        (mkFrame (put_col "ts_long" (put_col "lap_long" (columns df)))
                 (map extend (rows df)))).
Proof.
  intros Hp Hnd. pose proof (all_present_In _ _ Hp) as Hin.
  set (cols := columns df) in *.
  assert (Hr : forall x, In x need -> resolve x cols = Ok x).
  { intros x Hx. apply resolve_exact; auto. }
  assert (Hr2 : forall x, In x need ->
            resolve x (put_col "ts_long" (put_col "lap_long" cols)) = Ok x).
  { intros x Hx. rewrite !resolve_put_col_other; [apply Hr; exact Hx| |].
    - simpl in Hx. intuition (subst; reflexivity).
    - simpl in Hx. intuition (subst; reflexivity). }
  unfold d2. fold cols.
  rewrite (Hr "lap") by (simpl; tauto). cbv [bind].
  unfold withColumn. cbn [columns rows]. fold cols.
  rewrite resolve_put_col_other by reflexivity.
  rewrite (Hr "timestamp_ms") by (simpl; tauto).
  cbn [resolve_all]. cbv [bind].
  rewrite (Hr2 "event_id"), (Hr2 "session"), (Hr2 "car_no"), (Hr2 "lap")
    by (simpl; tauto).
  rewrite (resolve_put_col_other "lap_long" "ts_long") by reflexivity.
  rewrite (resolve_exact "lap_long")
    by (auto using NoDupCI_put_col, In_put_col_same).
  rewrite (resolve_put_col_other "ts_long" "prev_lap") by reflexivity.
  rewrite (resolve_exact "ts_long")
    by (auto using NoDupCI_put_col, In_put_col_same).
  f_equal. unfold lag_window. cbn [columns rows]. f_equal.
  rewrite map_map.
  f_equal. f_equal. apply map_ext. intros r.
  rewrite get_put_other by reflexivity. reflexivity.
Qed.

Lemma lagged_flags_lap (p1 p2 : cell) (rs : list row) :
  map flagged_lap (lagged p1 p2 (map extend rs)) =
  drops_from (long_of_cell p1) (map lap_of rs).
Proof.
  revert p1 p2. induction rs as [|r rs IH]; intros p1 p2; [reflexivity|].
  unfold lagged in *. cbn [map lag_rows drops_from]. f_equal.
  - unfold flagged_lap. rewrite back_cond_is_drop.
    rewrite (get_put_other "prev_lap" "prev_ts") by reflexivity.
    rewrite get_put_same.
    rewrite !(get_put_other "lap_long") by reflexivity.
    rewrite get_extend_lap_long, long_of_cell_of_long. reflexivity.
  - rewrite IH. rewrite get_extend_lap_long, long_of_cell_of_long. reflexivity.
Qed.

Lemma lagged_flags_ts (p1 p2 : cell) (rs : list row) :
  map flagged_ts (lagged p1 p2 (map extend rs)) =
  drops_from (long_of_cell p2) (map ts_of rs).
Proof.
  revert p1 p2. induction rs as [|r rs IH]; intros p1 p2; [reflexivity|].
  unfold lagged in *. cbn [map lag_rows drops_from]. f_equal.
  - unfold flagged_ts. rewrite back_cond_is_drop.
    rewrite get_put_same.
    rewrite !(get_put_other "ts_long") by reflexivity.
    rewrite get_extend_ts_long, long_of_cell_of_long. reflexivity.
  - rewrite IH. rewrite get_extend_ts_long, long_of_cell_of_long. reflexivity.
Qed.

Lemma lagged_keys (p1 p2 : cell) (rs : list row) :
  map (key_of need) (lagged p1 p2 (map extend rs)) = map (key_of need) rs.
Proof.
  revert p1 p2. induction rs as [|r rs IH]; intros p1 p2; [reflexivity|].
  unfold lagged in *. cbn [map lag_rows]. rewrite IH. f_equal.
  unfold key_of, need. cbn [map].
  rewrite !(get_put_other _ "prev_ts") by reflexivity.
  rewrite !(get_put_other _ "prev_lap") by reflexivity.
  rewrite !get_extend by reflexivity. reflexivity.
Qed.

Lemma key_of_extend (r : row) : key_of car_keys (extend r) = key_of car_keys r.
Proof.
  unfold key_of, car_keys. cbn [map]. rewrite !get_extend by reflexivity.
  reflexivity.
Qed.

Lemma lap_of_extend (r : row) : lap_of (extend r) = lap_of r.
Proof. unfold lap_of at 1. rewrite get_extend by reflexivity. reflexivity. Qed.

Lemma window_rows (rs : list row) :
  flat_map (fun p => lagged VNull VNull (sort lap_of p))
           (partitions (key_of car_keys) (map extend rs)) =
  flat_map (fun p => lagged VNull VNull (map extend p))
           (map (sort lap_of) (partitions (key_of car_keys) rs)).
Proof.
  rewrite (partitions_map extend (key_of car_keys) (key_of car_keys))
    by apply key_of_extend.
  rewrite !flat_map_map. apply flat_map_ext. intros p.
  rewrite (sort_map extend lap_of lap_of) by apply lap_of_extend.
  reflexivity.
Qed.

Lemma lap_ordered_ascending (df : frame) (p : list row) :
  In p (lap_ordered df) -> ascending None (map lap_of p).
Proof.
  unfold lap_ordered. intros H. apply in_map_iff in H.
  destruct H as [q [<- _]]. apply sort_ascending.
Qed.
End Sequence.

(** ** Sampling *)

Lemma sample_rows_ok (f : frame) (cols : list string) (n : nat) :
  NoDupCI (columns f) ->
  let present := filter (fun c => has_col c (columns f)) cols in
  sample_rows f cols n =
  Ok (match present with
      | [] => []
      | _ :: _ => map (project present) (firstn n (rows f))
      end).
Proof.
  intros Hnd present. unfold sample_rows. fold present.
  destruct present as [|c cs] eqn:Hp; [reflexivity|].
  rewrite resolve_all_exact; [reflexivity|exact Hnd|].
  intros x Hx. rewrite <- Hp in Hx. unfold present in Hx.
  apply filter_In in Hx. destruct Hx as [_ Hx].
  unfold has_col in Hx. apply existsb_exists in Hx.
  destruct Hx as [y [Hy Heq]]. apply String.eqb_eq in Heq. subst. exact Hy.
Qed.

Lemma add_result_frame (results : list check_result) (nm : string) (f : frame)
    (cols : list string) (nt : string) :
  NoDupCI (columns f) ->
  exists s,
    add_result results nm (OfFrame f) cols nt =
    Ok (results ++
          [mkResult nm (count f) (if count f =? 0 then PASS else FAIL)
             cols s (write_violations f nm) nt]) /\
    (List.length s <= 20)%nat.
Proof.
  intros Hnd. unfold add_result.
  rewrite (sample_rows_ok f cols 20 Hnd). cbv [bind].
  eexists. split; [reflexivity|].
  destruct (filter _ cols).
  - simpl. lia.
  - rewrite length_map. apply firstn_le_length.
Qed.

Section SequenceCheck.
Context {E : Engine}.

Lemma d2_columns_NoDupCI (cols : list string) :
  NoDupCI cols ->
  NoDupCI (put_col "prev_ts" (put_col "prev_lap"
             (put_col "ts_long" (put_col "lap_long" cols)))).
Proof. intros H. repeat apply NoDupCI_put_col. exact H. Qed.

Lemma sequence_frames (df : frame) :
  all_present need (columns df) = true ->
  NoDupCI (columns df) ->
  let d := window_frame df in
  d2 df = Ok d /\
  lap_back d = Ok (mkFrame (columns d) (filter flagged_lap (rows d))) /\
  ts_back d = Ok (mkFrame (columns d) (filter flagged_ts (rows d))) /\
  NoDupCI (columns d) /\
  rows d = flat_map (fun p => lagged VNull VNull (map extend p)) (lap_ordered df).
Proof.
  intros Hp Hnd d.
  pose proof (d2_rows df Hp Hnd) as Hd. fold (window_frame df) in Hd. fold d in Hd.
  set (cols := put_col "ts_long" (put_col "lap_long" (columns df))).
  assert (Hcols : columns d = put_col "prev_ts" (put_col "prev_lap" cols))
    by reflexivity.
  split; [exact Hd|]. split; [|split; [|split]].
  - unfold lap_back. rewrite Hcols.
    rewrite (resolve_put_col_other "prev_lap" "prev_ts") by reflexivity.
    rewrite (resolve_exact "prev_lap")
      by (unfold cols; auto using NoDupCI_put_col, In_put_col_same).
    cbv [bind].
    rewrite (resolve_put_col_other "lap_long" "prev_ts") by reflexivity.
    rewrite (resolve_put_col_other "lap_long" "prev_lap") by reflexivity.
    unfold cols.
    rewrite (resolve_put_col_other "lap_long" "ts_long") by reflexivity.
    rewrite (resolve_exact "lap_long")
      by (auto using NoDupCI_put_col, In_put_col_same).
    reflexivity.
  - unfold ts_back. rewrite Hcols.
    rewrite (resolve_exact "prev_ts")
      by (unfold cols; auto using NoDupCI_put_col, In_put_col_same).
    cbv [bind].
    rewrite (resolve_put_col_other "ts_long" "prev_ts") by reflexivity.
    rewrite (resolve_put_col_other "ts_long" "prev_lap") by reflexivity.
    unfold cols.
    rewrite (resolve_exact "ts_long")
      by (auto using NoDupCI_put_col, In_put_col_same).
    reflexivity.
  - rewrite Hcols. apply d2_columns_NoDupCI. exact Hnd.
  - unfold d, window_frame, lag_window. cbn [rows]. apply window_rows.
Qed.

Lemma check_sequence_present (results : list check_result) (df : frame) :
  all_present need (columns df) = true ->
  NoDupCI (columns df) ->
  let d := window_frame df in
  exists s1 s2,
    check_sequence results df =
    Ok (results ++
          [mkResult "lap_not_decreasing_per_car"
             (Z.of_nat (List.length (filter flagged_lap (rows d))))
             (if Z.of_nat (List.length (filter flagged_lap (rows d))) =? 0
              then PASS else FAIL)
             ["event_id"; "session"; "car_no"; "prev_lap"; "lap"] s1
             (write_violations (mkFrame (columns d) (filter flagged_lap (rows d)))
                "lap_not_decreasing_per_car") "";
           mkResult "timestamp_not_decreasing_per_car"
             (Z.of_nat (List.length (filter flagged_ts (rows d))))
             (if Z.of_nat (List.length (filter flagged_ts (rows d))) =? 0
              then PASS else FAIL)
             ["event_id"; "session"; "car_no"; "prev_ts"; "timestamp_ms"] s2
             (write_violations (mkFrame (columns d) (filter flagged_ts (rows d)))
                "timestamp_not_decreasing_per_car") ""]).
Proof.
  intros Hp Hnd d.
  destruct (sequence_frames df Hp Hnd) as [Hd [Hlb [Htb [Hndd _]]]]. fold d in Hd, Hlb, Htb, Hndd.
  set (lb := mkFrame (columns d) (filter flagged_lap (rows d))) in *.
  set (tb := mkFrame (columns d) (filter flagged_ts (rows d))) in *.
  destruct (add_result_frame results "lap_not_decreasing_per_car" lb
              ["event_id"; "session"; "car_no"; "prev_lap"; "lap"] "" Hndd)
    as [s1 [Ha1 _]].
  destruct (add_result_frame
              (results ++
               [mkResult "lap_not_decreasing_per_car" (count lb)
                  (if count lb =? 0 then PASS else FAIL)
                  ["event_id"; "session"; "car_no"; "prev_lap"; "lap"] s1
                  (write_violations lb "lap_not_decreasing_per_car") ""])
              "timestamp_not_decreasing_per_car" tb
              ["event_id"; "session"; "car_no"; "prev_ts"; "timestamp_ms"] "" Hndd)
    as [s2 [Ha2 _]].
  exists s1, s2.
  unfold check_sequence. rewrite Hp, Hd. cbv [bind]. rewrite Hlb, Htb.
  rewrite Ha1, Ha2. rewrite <- app_assoc. reflexivity.
Qed.

(** C4. With the five columns in the frame, the rows of each car are
    compared in ascending lap order: a row is reported by the lap
    (timestamp) check exactly when its lap (timestamp) is strictly less
    than that of the row immediately before it in its partition, and the
    first row of a partition is never reported.  As the order is the lap
    order itself, the lap check reports no row at all: on one partition
    with laps 1, 2, 3, 2, 5 its violation count is 0 (the timestamp check
    counts 1 there). *)
Theorem sequence_checks_compare_in_lap_order (df : frame) :
  all_present need (columns df) = true ->
  NoDupCI (columns df) ->
  exists d lb tb r1 r2,
    d2 df = Ok d /\ lap_back d = Ok lb /\ ts_back d = Ok tb /\
    check_sequence [] df = Ok [r1; r2] /\
    violations r1 = count lb /\ violations r2 = count tb /\
    rows lb = filter flagged_lap (rows d) /\
    rows tb = filter flagged_ts (rows d) /\
    map (key_of need) (rows d) = map (key_of need) (List.concat (lap_ordered df)) /\
    map flagged_lap (rows d) =
      flat_map (fun p => drops (map lap_of p)) (lap_ordered df) /\
    map flagged_ts (rows d) =
      flat_map (fun p => drops (map ts_of p)) (lap_ordered df) /\
    (forall v vs, drops (v :: vs) = false :: drops_from v vs) /\
    rows lb = [] /\
    (exists l1 l2, check_sequence [] laps_frame = Ok [l1; l2] /\
       violations l1 = 0 /\ violations l2 = 1).
Proof.
  intros Hp Hnd.
  destruct (sequence_frames df Hp Hnd) as [Hd [Hlb [Htb [Hndd Hrows]]]].
  destruct (check_sequence_present [] df Hp Hnd) as [s1 [s2 Hcs]].
  set (d := window_frame df) in *.
  assert (Hfl : map flagged_lap (rows d) =
            flat_map (fun p => drops (map lap_of p)) (lap_ordered df)).
  { rewrite Hrows, map_flat_map. apply flat_map_ext. intros p.
    apply lagged_flags_lap. }
  exists d. eexists. eexists. eexists. eexists.
  split; [exact Hd|]. split; [exact Hlb|]. split; [exact Htb|].
  split; [exact Hcs|].
  split; [reflexivity|]. split; [reflexivity|].
  split; [reflexivity|]. split; [reflexivity|].
  split.
  { rewrite Hrows, map_flat_map, flat_map_concat_map, concat_map.
    f_equal. apply map_ext. intros p. apply lagged_keys. }
  split; [exact Hfl|].
  split.
  { rewrite Hrows, map_flat_map. apply flat_map_ext. intros p.
    apply lagged_flags_ts. }
  split; [reflexivity|].
  split.
  { cbn [rows]. apply filter_all_false. rewrite Hfl.
    apply Forall_flat_map. intros p Hin. apply ascending_no_drop.
    apply (lap_ordered_ascending df). exact Hin. }
  eexists. eexists. split; [reflexivity|]. split; reflexivity.
Qed.
End SequenceCheck.

Lemma need_NoDupCI : NoDupCI need.
Proof.
  unfold NoDupCI. simpl. repeat constructor; simpl; intuition discriminate.
Qed.

Lemma sequence_checks_compare_in_lap_order_witness :
  all_present need (columns laps_frame) = true /\
  NoDupCI (columns laps_frame) /\
  exists d lb tb r1 r2,
    d2 (E := reference_engine) laps_frame = Ok d /\
    lap_back d = Ok lb /\ ts_back d = Ok tb /\
    check_sequence [] laps_frame = Ok [r1; r2] /\
    violations r1 = count lb /\ violations r2 = count tb /\
    rows lb = filter flagged_lap (rows d) /\
    rows tb = filter flagged_ts (rows d) /\
    map (key_of need) (rows d) =
      map (key_of need) (List.concat (lap_ordered laps_frame)) /\
    map flagged_lap (rows d) =
      flat_map (fun p => drops (map lap_of p)) (lap_ordered laps_frame) /\
    map flagged_ts (rows d) =
      flat_map (fun p => drops (map ts_of p)) (lap_ordered laps_frame) /\
    (forall v vs, drops (v :: vs) = false :: drops_from v vs) /\
    rows lb = [] /\
    (exists l1 l2, check_sequence [] laps_frame = Ok [l1; l2] /\
       violations l1 = 0 /\ violations l2 = 1).
Proof.
  split; [reflexivity|]. split; [exact need_NoDupCI|].
  apply (sequence_checks_compare_in_lap_order (E := reference_engine) laps_frame).
  - reflexivity.
  - exact need_NoDupCI.
Defined.

(** On laps 1, 2, 3, 2, 5 the lap check counts 0 violations, not 1. *)
Lemma laps_1_2_3_2_5_lap_check_counts_zero :
  map (get "lap") (rows laps_frame) = [VLong 1; VLong 2; VLong 3; VLong 2; VLong 5] /\
  exists r1 r2,
    check_sequence (E := reference_engine) [] laps_frame = Ok [r1; r2] /\
    name r1 = "lap_not_decreasing_per_car" /\
    violations r1 = 0 /\ violations r1 <> 1.
Proof.
  split; [reflexivity|].
  eexists. eexists. split; [reflexivity|]. split; [reflexivity|].
  split; [reflexivity|discriminate].
Qed.

(** ** Null and non-coercible values *)

Section NullValues.
Context {E : Engine}.

Lemma lagged_Forall (P : row -> Prop) (p1 p2 : cell) (rs : list row) :
  (forall a b r, P (put "prev_ts" b (put "prev_lap" a (extend r)))) ->
  Forall P (lagged p1 p2 (map extend rs)).
Proof.
  intros H. revert p1 p2. induction rs as [|r rs IH]; intros p1 p2.
  - constructor.
  - unfold lagged in *. cbn [map lag_rows]. constructor; [apply H|apply IH].
Qed.

Lemma window_frame_derived (df : frame) (x : row) :
  In x (rows (window_frame df)) ->
  get "lap_long" x = cell_of_long (cast_long (get "lap" x)) /\
  get "ts_long" x = cell_of_long (cast_long (get "timestamp_ms" x)).
Proof.
  unfold window_frame, lag_window. cbn [rows]. fold lagged.
  change (fun p : list row => lag_rows "lap_long" "prev_lap" "ts_long" "prev_ts"
            VNull VNull (sort lap_of p))
    with (fun p : list row => lagged VNull VNull (sort lap_of p)).
  rewrite window_rows. revert x. apply Forall_forall.
  apply Forall_flat_map. intros p _. apply lagged_Forall. intros a b r.
  rewrite !(get_put_other _ "prev_ts") by reflexivity.
  rewrite !(get_put_other _ "prev_lap") by reflexivity.
  rewrite get_extend_lap_long, get_extend_ts_long.
  rewrite !get_extend by reflexivity. split; reflexivity.
Qed.

Lemma back_cond_null (cur prev : cell) :
  long_of_cell cur = None -> holds (back_cond cur prev) = false.
Proof.
  intros H. rewrite back_cond_is_drop, H. destruct (long_of_cell prev); reflexivity.
Qed.

(** C6. A value that is null or does not coerce to a number is always
    reported by the range checks, a null timestamp by the timestamp-format
    check, and a null or non-numeric sensor value of a wet row by the
    conditional check.  The sequence checks compare values and drop
    comparisons with NULL: a row of the window whose lap (timestamp) is
    null or does not coerce to a long is never reported by the lap
    (timestamp) check. *)
Theorem null_values_by_check (df : frame) :
  all_present need (columns df) = true ->
  NoDupCI (columns df) ->
  (forall lo hi c, c = VNull \/ cast_double c = None ->
     holds (range_cond lo hi c) = true /\ holds (floor_cond lo c) = true) /\
  holds (ts_cond VNull) = true /\
  (forall tyre sensor, wet tyre -> sensor = VNull \/ cast_double sensor = None ->
     holds (wet_cond tyre sensor) = true) /\
  exists d lb tb,
    d2 df = Ok d /\ lap_back d = Ok lb /\ ts_back d = Ok tb /\
    (forall x, In x (rows d) ->
       get "lap" x = VNull \/ cast_long (get "lap" x) = None ->
       ~ In x (rows lb)) /\
    (forall x, In x (rows d) ->
       get "timestamp_ms" x = VNull \/ cast_long (get "timestamp_ms" x) = None ->
       ~ In x (rows tb)).
Proof.
  intros Hp Hnd.
  assert (Hnull : forall c, c = VNull \/ cast_double c = None -> cast_double c = None).
  { intros c [->|H]; [reflexivity|exact H]. }
  assert (Hlong : forall c, c = VNull \/ cast_long c = None -> cast_long c = None).
  { intros c [->|H]; [reflexivity|exact H]. }
  split; [|split; [|split]].
  - intros lo hi c Hc. apply Hnull in Hc. split.
    + apply range_cond_iff. right. left. exact Hc.
    + apply floor_cond_null. exact Hc.
  - reflexivity.
  - intros tyre sensor Hw Hs. apply wet_cond_iff. split; [exact Hw|].
    right. left. apply Hnull. exact Hs.
  - destruct (sequence_frames df Hp Hnd) as [Hd [Hlb [Htb _]]].
    eexists. eexists. eexists.
    split; [exact Hd|]. split; [exact Hlb|]. split; [exact Htb|].
    cbn [rows]. split.
    + intros x Hx Hc Hin. apply Hlong in Hc.
      apply filter_In in Hin. destruct Hin as [_ Hf].
      destruct (window_frame_derived df x Hx) as [Hl _].
      unfold flagged_lap in Hf. rewrite back_cond_null in Hf; [discriminate|].
      rewrite Hl, Hc. reflexivity.
    + intros x Hx Hc Hin. apply Hlong in Hc.
      apply filter_In in Hin. destruct Hin as [_ Hf].
      destruct (window_frame_derived df x Hx) as [_ Ht].
      unfold flagged_ts in Hf. rewrite back_cond_null in Hf; [discriminate|].
      rewrite Ht, Hc. reflexivity.
Qed.

(** [isin] of NULL is NULL, and so is its negation. *)
Lemma tyre_domain_null_not_reported : holds (tyre_cond VNull) = false.
Proof. reflexivity. Qed.
End NullValues.

Lemma null_values_by_check_witness :
  all_present need (columns null_ts_frame) = true /\
  NoDupCI (columns null_ts_frame) /\
  (forall lo hi c, c = VNull \/ cast_double (E := reference_engine) c = None ->
     holds (range_cond lo hi c) = true /\ holds (floor_cond lo c) = true) /\
  holds (ts_cond (E := reference_engine) VNull) = true /\
  (forall tyre sensor, wet (E := reference_engine) tyre ->
     sensor = VNull \/ cast_double sensor = None ->
     holds (wet_cond tyre sensor) = true) /\
  exists d lb tb,
    d2 (E := reference_engine) null_ts_frame = Ok d /\
    lap_back d = Ok lb /\ ts_back d = Ok tb /\
    (forall x, In x (rows d) ->
       get "lap" x = VNull \/ cast_long (get "lap" x) = None ->
       ~ In x (rows lb)) /\
    (forall x, In x (rows d) ->
       get "timestamp_ms" x = VNull \/ cast_long (get "timestamp_ms" x) = None ->
       ~ In x (rows tb)).
Proof.
  split; [reflexivity|]. split; [exact need_NoDupCI|].
  apply (null_values_by_check (E := reference_engine) null_ts_frame).
  - reflexivity.
  - exact need_NoDupCI.
Defined.

(** The second row of [null_ts_frame] has no timestamp, and the timestamp
    sequence check passes with 0 violations. *)
Lemma null_timestamp_passes_sequence_check :
  In (seq_row (VLong 2) VNull) (rows null_ts_frame) /\
  get "timestamp_ms" (seq_row (VLong 2) VNull) = VNull /\
  exists r1 r2,
    check_sequence (E := reference_engine) [] null_ts_frame = Ok [r1; r2] /\
    name r2 = "timestamp_not_decreasing_per_car" /\
    violations r2 = 0 /\ status r2 = PASS.
Proof.
  split; [simpl; tauto|]. split; [reflexivity|].
  eexists. eexists. split; [reflexivity|]. split; [reflexivity|].
  split; reflexivity.
Qed.

(** ** The run *)

Ltac bind_inv H :=
  match type of H with
  | bind ?m _ = Ok _ =>
      let x := fresh "x" in
      let Hx := fresh "Hx" in
      destruct m as [x|] eqn:Hx; [cbn [bind] in H | discriminate H]
  end.

Lemma add_result_names (results : list check_result) (nm : string)
    (dc : count_like) (cols : list string) (nt : string)
    (out : list check_result) :
  add_result results nm dc cols nt = Ok out ->
  map name out = map name results ++ [nm].
Proof.
  unfold add_result. destruct dc as [f|n]; intros H.
  - bind_inv H. injection H as <-. rewrite map_app. reflexivity.
  - injection H as <-. rewrite map_app. reflexivity.
Qed.

Lemma add_result_int (results : list check_result) (nm : string) (n : Z)
    (cols : list string) (nt : string) :
  exists out, add_result results nm (OfInt n) cols nt = Ok out.
Proof. eexists. reflexivity. Qed.

Lemma add_result_frame_ok (results : list check_result) (nm : string)
    (f : frame) (cols : list string) (nt : string) :
  NoDupCI (columns f) ->
  exists out, add_result results nm (OfFrame f) cols nt = Ok out.
Proof.
  intros H. destruct (add_result_frame results nm f cols nt H) as [s [Hs _]].
  eexists. exact Hs.
Qed.

Lemma has_col_In (c : string) (cols : list string) :
  has_col c cols = true -> In c cols.
Proof.
  unfold has_col. intros H. apply existsb_exists in H.
  destruct H as [x [Hx He]]. apply String.eqb_eq in He. subst. exact Hx.
Qed.

Lemma pk_count_NoDupCI : NoDupCI (pk ++ ["count"]).
Proof.
  unfold NoDupCI. simpl. repeat constructor; simpl; intuition discriminate.
Qed.

Section Run.
Context {E : Engine}.

Lemma check_required_names (results out : list check_result) (df : frame) :
  check_required results df = Ok out ->
  map name out = map name results ++ ["required_columns_present"].
Proof. apply add_result_names. Qed.

Lemma check_pk_names (results out : list check_result) (df : frame) :
  check_pk results df = Ok out ->
  map name out = map name results ++ ["pk_unique"].
Proof.
  unfold check_pk. destruct (all_present pk (columns df)); intros H.
  - bind_inv H. apply add_result_names in H. exact H.
  - apply add_result_names in H. exact H.
Qed.

Lemma check_ts_names (results out : list check_result) (df : frame) :
  check_ts results df = Ok out ->
  map name out = map name results ++ ["timestamp_ms_is_13_digits"].
Proof.
  unfold check_ts. intros H. bind_inv H. apply add_result_names in H. exact H.
Qed.

Lemma check_sequence_names (results out : list check_result) (df : frame) :
  check_sequence results df = Ok out ->
  map name out =
  map name results ++
    ["lap_not_decreasing_per_car"; "timestamp_not_decreasing_per_car"].
Proof.
  unfold check_sequence. destruct (all_present need (columns df)); intros H.
  - do 4 bind_inv H.
    apply add_result_names in H. apply add_result_names in Hx2.
    rewrite H, Hx2, <- app_assoc. reflexivity.
  - bind_inv H.
    apply add_result_names in H. apply add_result_names in Hx.
    rewrite H, Hx, <- app_assoc. reflexivity.
Qed.

Lemma check_ranges_names (results out : list check_result) (df : frame) :
  check_ranges results df = Ok out ->
  map name out =
  map name results ++
    ["air_temp_c_in_0_30"; "track_temp_c_in_-20_80"; "battery_soc_in_0.6_40";
     "fuel_kg_non_negative"].
Proof.
  unfold check_ranges. intros H. do 7 bind_inv H.
  apply add_result_names in H, Hx3, Hx4, Hx5.
  rewrite H, Hx5, Hx4, Hx3, <- !app_assoc. reflexivity.
Qed.

Lemma check_wet_names (results out : list check_result) (df : frame) :
  check_wet results df = Ok out ->
  map name out = map name results ++ ["if_wet_then_sensor_0008_val_100_250"].
Proof.
  unfold check_wet.
  destruct (has_col "tyre" (columns df) && has_col "sensor_0008_val" (columns df))%bool;
    intros H.
  - bind_inv H. apply add_result_names in H. exact H.
  - apply add_result_names in H. exact H.
Qed.

Lemma check_tyre_names (results out : list check_result) (df : frame) :
  check_tyre results df = Ok out ->
  map name out = map name results ++ ["tyre_in_domain"].
Proof.
  unfold check_tyre. destruct (has_col "tyre" (columns df)); intros H.
  - bind_inv H. apply add_result_names in H. exact H.
  - apply add_result_names in H. exact H.
Qed.

Lemma run_names (df : frame) (out : list check_result) :
  run df = Ok out -> map name out = check_names.
Proof.
  unfold run. intros H. do 6 bind_inv H.
  apply check_required_names in Hx. apply check_pk_names in Hx0.
  apply check_ts_names in Hx1. apply check_sequence_names in Hx2.
  apply check_ranges_names in Hx3. apply check_wet_names in Hx4.
  apply check_tyre_names in H.
  rewrite H, Hx4, Hx3, Hx2, Hx1, Hx0, Hx. reflexivity.
Qed.

Lemma check_required_ok (results : list check_result) (df : frame) :
  exists out, check_required results df = Ok out.
Proof. unfold check_required. apply add_result_int. Qed.

Lemma check_pk_ok (results : list check_result) (df : frame) :
  NoDupCI (columns df) -> exists out, check_pk results df = Ok out.
Proof.
  intros Hnd. unfold check_pk.
  destruct (all_present pk (columns df)) eqn:Hp; [|apply add_result_int].
  rewrite (dupes_rows df Hp Hnd). cbv [bind].
  apply add_result_frame_ok. exact pk_count_NoDupCI.
Qed.

Lemma check_ts_ok (results : list check_result) (df : frame) :
  NoDupCI (columns df) ->
  (exists out, check_ts results df = Ok out) <->
  (exists a, resolve "timestamp_ms" (columns df) = Ok a).
Proof.
  intros Hnd. unfold check_ts, bad_ts.
  destruct (resolve "timestamp_ms" (columns df)) as [a|e]; cbv [bind].
  - split; [eauto|]. intros _. apply add_result_frame_ok. exact Hnd.
  - split; intros [x H]; discriminate.
Qed.

Lemma check_sequence_ok (results : list check_result) (df : frame) :
  NoDupCI (columns df) -> exists out, check_sequence results df = Ok out.
Proof.
  intros Hnd. destruct (all_present need (columns df)) eqn:Hp.
  - destruct (check_sequence_present results df Hp Hnd) as [s1 [s2 H]].
    eexists. exact H.
  - unfold check_sequence. rewrite Hp. eexists. reflexivity.
Qed.

Lemma check_ranges_ok (results : list check_result) (df : frame) :
  NoDupCI (columns df) ->
  (exists out, check_ranges results df = Ok out) <->
  (exists a, resolve "air_temp_c" (columns df) = Ok a) /\
  (exists a, resolve "track_temp_c" (columns df) = Ok a) /\
  (exists a, resolve "battery_soc" (columns df) = Ok a) /\
  (exists a, resolve "fuel_kg" (columns df) = Ok a).
Proof.
  intros Hnd. unfold check_ranges, bad_air, bad_track, bad_soc, bad_fuel.
  destruct (resolve "air_temp_c" (columns df)) as [a|e]; cbv [bind];
    [|split; [intros [x H]; discriminate|intros [[x H] _]; discriminate]].
  destruct (resolve "track_temp_c" (columns df)) as [b|e]; cbv [bind];
    [|split; [intros [x H]; discriminate|intros [_ [[x H] _]]; discriminate]].
  destruct (resolve "battery_soc" (columns df)) as [c|e]; cbv [bind];
    [|split; [intros [x H]; discriminate|intros [_ [_ [[x H] _]]]; discriminate]].
  destruct (resolve "fuel_kg" (columns df)) as [d|e]; cbv [bind];
    [|split; [intros [x H]; discriminate|intros [_ [_ [_ [x H]]]]; discriminate]].
  split; [eauto 10|]. intros _.
  destruct (add_result_frame results "air_temp_c_in_0_30"
              (where_ (fun r => range_cond (double_of_Z 0) (double_of_Z 30) (get a r)) df)
              ["event_id"; "lap"; "air_temp_c"] "" Hnd) as [s1 [H1 _]].
  rewrite H1.
  match goal with |- context [add_result ?r "track_temp_c_in_-20_80" (OfFrame ?f) ?c ?n] =>
    destruct (add_result_frame r "track_temp_c_in_-20_80" f c n Hnd) as [s2 [H2 _]];
    rewrite H2 end.
  match goal with |- context [add_result ?r "battery_soc_in_0.6_40" (OfFrame ?f) ?c ?n] =>
    destruct (add_result_frame r "battery_soc_in_0.6_40" f c n Hnd) as [s3 [H3 _]];
    rewrite H3 end.
  apply add_result_frame_ok. exact Hnd.
Qed.

Lemma check_wet_ok (results : list check_result) (df : frame) :
  NoDupCI (columns df) -> exists out, check_wet results df = Ok out.
Proof.
  intros Hnd. unfold check_wet, bad_wet.
  destruct (has_col "tyre" (columns df)) eqn:Ht; cbn [andb];
    [|apply add_result_int].
  destruct (has_col "sensor_0008_val" (columns df)) eqn:Hs;
    [|apply add_result_int].
  rewrite !resolve_exact by auto using has_col_In. cbv [bind].
  apply add_result_frame_ok. exact Hnd.
Qed.

Lemma check_tyre_ok (results : list check_result) (df : frame) :
  NoDupCI (columns df) -> exists out, check_tyre results df = Ok out.
Proof.
  intros Hnd. unfold check_tyre, bad_tyre.
  destruct (has_col "tyre" (columns df)) eqn:Ht; [|apply add_result_int].
  rewrite !resolve_exact by auto using has_col_In. cbv [bind].
  apply add_result_frame_ok. exact Hnd.
Qed.

(** C2. The script has no handler: an analysis error raised by a check
    ends the run.  For a frame whose column names are distinct up to case,
    the run completes exactly when the five columns read without a guard
    ([timestamp_ms], [air_temp_c], [track_temp_c], [battery_soc],
    [fuel_kg]) resolve, and a run that completes holds one result per
    declared check, in declaration order. *)
Theorem run_completes_iff_unguarded_columns_resolve (df : frame) :
  NoDupCI (columns df) ->
  ((exists out, run df = Ok out) <->
   (forall c, In c unguarded -> exists a, resolve c (columns df) = Ok a)) /\
  (forall out, run df = Ok out -> map name out = check_names).
Proof.
  intros Hnd. split; [|apply run_names].
  unfold run.
  destruct (check_required_ok [] df) as [r1 H1]. rewrite H1. cbn [bind].
  destruct (check_pk_ok r1 df Hnd) as [r2 H2]. rewrite H2. cbn [bind].
  pose proof (check_ts_ok r2 df Hnd) as Hts.
  destruct (check_ts r2 df) as [r3|e3] eqn:H3; cbn [bind].
  - destruct (check_sequence_ok r3 df Hnd) as [r4 H4]. rewrite H4. cbn [bind].
    pose proof (check_ranges_ok r4 df Hnd) as Hrg.
    destruct (check_ranges r4 df) as [r5|e5] eqn:H5; cbn [bind].
    + destruct (check_wet_ok r5 df Hnd) as [r6 H6]. rewrite H6. cbn [bind].
      split; [|intros _; apply check_tyre_ok; exact Hnd].
      intros _ c Hc.
      destruct (proj1 Hrg) as [Ha [Hb [Hc' Hd]]]; [eauto|].
      destruct (proj1 Hts) as [a Ht]; [eauto|].
      simpl in Hc. intuition (subst; eauto).
    + split; [intros [x H]; discriminate|].
      intros H. exfalso.
      destruct (proj2 Hrg) as [x Hr]; [|discriminate].
      repeat split; apply H; simpl; tauto.
  - split; [intros [x H]; discriminate|].
    intros H. exfalso.
    destruct (proj2 Hts) as [x Hr]; [|discriminate].
    apply H. simpl. tauto.
Qed.
End Run.

Lemma script_columns_NoDupCI : NoDupCI script_columns.
Proof.
  unfold NoDupCI. simpl. repeat constructor; simpl; intuition discriminate.
Qed.

Lemma run_completes_iff_unguarded_columns_resolve_witness :
  NoDupCI (columns full_frame) /\
  ((exists out, run (E := reference_engine) full_frame = Ok out) <->
   (forall c, In c unguarded -> exists a, resolve c (columns full_frame) = Ok a)) /\
  (forall out, run (E := reference_engine) full_frame = Ok out ->
     map name out = check_names).
Proof.
  split; [exact script_columns_NoDupCI|].
  apply (run_completes_iff_unguarded_columns_resolve (E := reference_engine) full_frame).
  exact script_columns_NoDupCI.
Defined.

(** Without the column [fuel_kg] the run ends in an analysis error and
    produces no result. *)
Lemma run_aborts_without_fuel_column :
  run (E := reference_engine) (frame_without "fuel_kg") = Err (Unresolved "fuel_kg") /\
  ~ exists out, run (E := reference_engine) (frame_without "fuel_kg") = Ok out.
Proof.
  split; [reflexivity|]. intros [out H]. discriminate H.
Qed.

(** The eleven results of a run on [full_frame]. *)
Example run_full_frame {E : Engine} :
  exists out, run full_frame = Ok out /\
    map name out = check_names /\
    map violations out = [0; 0; 0; 0; 1; 1; 0; 0; 1; 1; 1] /\
    map status out = [PASS; PASS; PASS; PASS; FAIL; FAIL; PASS; PASS; FAIL; FAIL; FAIL].
Proof.
  eexists. split; [reflexivity|]. split; [reflexivity|]. split; reflexivity.
Qed.

(** ** Consistency of the results *)

Lemma sample_rows_length (f : frame) (cols : list string) (n : nat)
    (s : list row) :
  sample_rows f cols n = Ok s ->
  (List.length s <= n)%nat /\ (List.length s <= List.length (rows f))%nat.
Proof.
  unfold sample_rows.
  destruct (filter (fun c => has_col c (columns f)) cols) as [|c cs].
  - intros H. injection H as <-. simpl. lia.
  - intros H. bind_inv H. injection H as <-.
    rewrite length_map, length_firstn. lia.
Qed.

Lemma add_result_ok (results : list check_result) (nm : string)
    (dc : count_like) (cols : list string) (nt : string)
    (out : list check_result) :
  Forall result_ok results ->
  (forall n, dc = OfInt n -> 0 <= n) ->
  add_result results nm dc cols nt = Ok out ->
  Forall result_ok out.
Proof.
  intros Hres Hn. unfold add_result. destruct dc as [f|n]; intros H.
  - bind_inv H. injection H as <-. apply Forall_app. split; [exact Hres|].
    constructor; [|constructor].
    destruct (sample_rows_length f cols 20 x Hx) as [H20 Hlen].
    unfold result_ok, write_violations, count. cbn [status violations sample csv name].
    destruct (Z.eqb_spec (Z.of_nat (List.length (rows f))) 0) as [He|He].
    + repeat split; try lia; try discriminate.
    + repeat split; try lia; try discriminate.
      * injection H as <-. reflexivity.
  - injection H as <-. apply Forall_app. split; [exact Hres|].
    constructor; [|constructor].
    specialize (Hn n eq_refl).
    unfold result_ok. cbn [status violations sample csv name].
    destruct (Z.eqb_spec n 0) as [He|He]; repeat split; simpl; try lia; try discriminate.
Qed.

Ltac add_ok H :=
  eapply add_result_ok in H;
  [ | eassumption | intros ? Heq; try discriminate Heq; injection Heq as <-; lia ].

Section ResultsOk.
Context {E : Engine}.

Lemma check_required_ok_inv (results out : list check_result) (df : frame) :
  Forall result_ok results -> check_required results df = Ok out ->
  Forall result_ok out.
Proof.
  intros Hres H. unfold check_required in H.
  set (m := missing_from required (columns df)) in H.
  eapply add_result_ok in H; [exact H|exact Hres|].
  intros n Heq. injection Heq as <-. destruct m; lia.
Qed.

Lemma check_pk_ok_inv (results out : list check_result) (df : frame) :
  Forall result_ok results -> check_pk results df = Ok out ->
  Forall result_ok out.
Proof.
  intros Hres H. unfold check_pk in H.
  destruct (all_present pk (columns df)).
  - bind_inv H. add_ok H. exact H.
  - add_ok H. exact H.
Qed.

Lemma check_ts_ok_inv (results out : list check_result) (df : frame) :
  Forall result_ok results -> check_ts results df = Ok out ->
  Forall result_ok out.
Proof.
  intros Hres H. unfold check_ts in H. bind_inv H. add_ok H. exact H.
Qed.

Lemma check_sequence_ok_inv (results out : list check_result) (df : frame) :
  Forall result_ok results -> check_sequence results df = Ok out ->
  Forall result_ok out.
Proof.
  intros Hres H. unfold check_sequence in H.
  destruct (all_present need (columns df)).
  - do 4 bind_inv H. add_ok Hx2. add_ok H. exact H.
  - bind_inv H. add_ok Hx. add_ok H. exact H.
Qed.

Lemma check_ranges_ok_inv (results out : list check_result) (df : frame) :
  Forall result_ok results -> check_ranges results df = Ok out ->
  Forall result_ok out.
Proof.
  intros Hres H. unfold check_ranges in H. do 7 bind_inv H.
  add_ok Hx3. add_ok Hx4. add_ok Hx5. add_ok H. exact H.
Qed.

Lemma check_wet_ok_inv (results out : list check_result) (df : frame) :
  Forall result_ok results -> check_wet results df = Ok out ->
  Forall result_ok out.
Proof.
  intros Hres H. unfold check_wet in H.
  destruct (has_col "tyre" (columns df) && has_col "sensor_0008_val" (columns df))%bool.
  - bind_inv H. add_ok H. exact H.
  - add_ok H. exact H.
Qed.

Lemma check_tyre_ok_inv (results out : list check_result) (df : frame) :
  Forall result_ok results -> check_tyre results df = Ok out ->
  Forall result_ok out.
Proof.
  intros Hres H. unfold check_tyre in H.
  destruct (has_col "tyre" (columns df)).
  - bind_inv H. add_ok H. exact H.
  - add_ok H. exact H.
Qed.

(** X1. Every result of a run that completes is consistent: its status
    is PASS exactly when its count is 0, the count is not negative, the
    sample holds at most 20 rows and at most as many rows as the count,
    and an export path is present only with a positive count and is the
    violations directory followed by the name of the check. *)
Theorem run_results_consistent (df : frame) (out : list check_result) :
  run df = Ok out -> Forall result_ok out.
Proof.
  unfold run. intros H. do 6 bind_inv H.
  apply check_required_ok_inv in Hx; [|constructor].
  apply check_pk_ok_inv in Hx0; [|exact Hx].
  apply check_ts_ok_inv in Hx1; [|exact Hx0].
  apply check_sequence_ok_inv in Hx2; [|exact Hx1].
  apply check_ranges_ok_inv in Hx3; [|exact Hx2].
  apply check_wet_ok_inv in Hx4; [|exact Hx3].
  apply check_tyre_ok_inv in H; [exact H|exact Hx4].
Qed.
End ResultsOk.

Lemma run_results_consistent_witness :
  exists out, run (E := reference_engine) full_frame = Ok out /\
              Forall result_ok out.
Proof.
  eexists. split; [reflexivity|].
  apply (run_results_consistent (E := reference_engine) full_frame).
  reflexivity.
Defined.

(** ** Presence tests and resolution *)

Lemma has_col_iff (c : string) (cols : list string) :
  has_col c cols = true <-> In c cols.
Proof.
  split; [apply has_col_In|].
  intros H. unfold has_col. apply existsb_exists. exists c.
  split; [exact H|apply String.eqb_refl].
Qed.

Lemma missing_from_In (names cols : list string) (c : string) :
  In c (missing_from names cols) <-> In c names /\ ~ In c cols.
Proof.
  unfold missing_from. rewrite filter_In, negb_true_iff.
  pose proof (has_col_iff c cols) as H.
  destruct (has_col c cols); intuition congruence.
Qed.

Lemma missing_from_nil (names cols : list string) :
  missing_from names cols = [] <-> forall c, In c names -> In c cols.
Proof.
  split.
  - intros H c Hc. destruct (has_col c cols) eqn:Hh; [apply has_col_In; exact Hh|].
    assert (Hin : In c (missing_from names cols)).
    { apply missing_from_In. split; [exact Hc|]. rewrite <- has_col_iff. congruence. }
    rewrite H in Hin. contradiction.
  - intros H. destruct (missing_from names cols) as [|c l] eqn:Hm; [reflexivity|].
    assert (Hin : In c (missing_from names cols)) by (rewrite Hm; left; reflexivity).
    apply missing_from_In in Hin. destruct Hin as [Hc Hn].
    exfalso. apply Hn, H, Hc.
Qed.

(** X2. The presence check never raises and appends one result: its
    count is 0 when each of the eight required names is a column of the
    frame, spelled exactly, and 1 otherwise; the note then lists exactly
    the required names that are not columns; there is no sample and no
    export. *)
Theorem required_columns_report (results : list check_result) (df : frame) :
  exists r,
    check_required results df = Ok (results ++ [r]) /\
    name r = "required_columns_present" /\
    (violations r = 0 \/ violations r = 1) /\
    (violations r = 0 <-> forall c, In c required -> In c (columns df)) /\
    (forall c, In c (missing_from required (columns df)) <->
               In c required /\ ~ In c (columns df)) /\
    (violations r = 0 -> note r = "All present") /\
    (violations r = 1 ->
     note r = ("Missing: " ++
               String.concat ", " (missing_from required (columns df)))%string) /\
    sample r = [] /\ csv r = None.
Proof.
  unfold check_required, add_result.
  pose proof (missing_from_nil required (columns df)) as Hnil.
  pose proof (missing_from_In required (columns df)) as Hin.
  set (m := missing_from required (columns df)) in *.
  eexists. split; [reflexivity|]. cbn [name violations note sample csv].
  split; [reflexivity|].
  destruct m as [|c l].
  - split; [auto|]. split; [split; [intros _; apply Hnil; reflexivity|reflexivity]|].
    split; [exact Hin|]. repeat split; try reflexivity. discriminate.
  - split; [auto|]. split.
    { split; [discriminate|]. intros H. apply Hnil in H. discriminate. }
    split; [exact Hin|]. repeat split; try reflexivity. discriminate.
Qed.

Lemma resolve_ambiguous (n a b : string) (cols : list string) :
  In a cols -> In b cols -> a <> b ->
  ci_eqb n a = true -> ci_eqb n b = true ->
  resolve n cols = Err (Ambiguous n).
Proof.
  intros Ha Hb Hab Hna Hnb. unfold resolve.
  assert (Ha' : In a (filter (ci_eqb n) cols)) by (apply filter_In; auto).
  assert (Hb' : In b (filter (ci_eqb n) cols)) by (apply filter_In; auto).
  destruct (filter (ci_eqb n) cols) as [|x [|y l]]; [contradiction| |reflexivity].
  simpl in Ha', Hb'. intuition congruence.
Qed.

Lemma resolve_other_name (n a : string) (cols : list string) :
  resolve n cols = Ok a -> a <> n -> ~ In n cols.
Proof.
  unfold resolve. intros H Hne Hin.
  assert (Hn : In n (filter (ci_eqb n) cols)).
  { apply filter_In. split; [exact Hin|apply ci_eqb_refl]. }
  destruct (filter (ci_eqb n) cols) as [|x [|y l]]; try discriminate.
  injection H as ->. simpl in Hn. intuition congruence.
Qed.

Section Presence.
Context {E : Engine}.

(** X3. Presence is tested with the exact spelling while references are
    resolved up to case: when [timestamp_ms] resolves to a column spelled
    differently, the presence check reports it missing and the sequence
    checks report missing columns, yet the timestamp-format check runs on
    that column. *)
Theorem presence_is_case_sensitive (df : frame) (a : string) :
  NoDupCI (columns df) ->
  resolve "timestamp_ms" (columns df) = Ok a ->
  a <> "timestamp_ms" ->
  (exists r, check_required [] df = Ok [r] /\ violations r = 1 /\
             In "timestamp_ms" (missing_from required (columns df))) /\
  (exists r1 r2, check_sequence [] df = Ok [r1; r2] /\
     violations r1 = 1 /\ violations r2 = 1 /\
     note r1 = "missing columns" /\ note r2 = "missing columns") /\
  (exists bad r, bad_ts df = Ok bad /\ check_ts [] df = Ok [r] /\
     violations r = count bad /\
     rows bad = filter (fun x => holds (ts_cond (get a x))) (rows df)).
Proof.
  intros Hnd Hr Hne.
  pose proof (resolve_other_name _ _ _ Hr Hne) as Hnot.
  assert (Hmiss : In "timestamp_ms" (missing_from required (columns df))).
  { apply missing_from_In. split; [simpl; tauto|exact Hnot]. }
  split; [|split].
  - destruct (required_columns_report [] df) as [r [Hc [_ [H01 [H0 _]]]]].
    exists r. split; [exact Hc|]. split; [|exact Hmiss].
    destruct H01 as [H|H]; [|exact H].
    exfalso. apply Hnot. apply (proj1 H0 H). simpl. tauto.
  - assert (Hp : all_present need (columns df) = false).
    { apply not_true_is_false. intros Hp. apply Hnot.
      apply (all_present_In _ _ Hp). simpl. tauto. }
    unfold check_sequence. rewrite Hp. eexists. eexists.
    split; [reflexivity|]. repeat split; reflexivity.
  - unfold check_ts, bad_ts. rewrite Hr. cbv [bind].
    destruct (add_result_frame [] "timestamp_ms_is_13_digits"
                (where_ (fun r => ts_cond (get a r)) df)
                ["event_id"; "lap"; "timestamp_ms"] "" Hnd) as [s [Hs _]].
    eexists. eexists. split; [reflexivity|]. split; [exact Hs|].
    split; reflexivity.
Qed.

(** X4. The presence guard does not exclude ambiguity: when the frame
    has the column [tyre] and another column equal to it up to case, the
    guard holds, the reference is ambiguous, the tyre check raises and no
    run completes. *)
Theorem guard_does_not_exclude_ambiguity (df : frame) (c : string)
    (results : list check_result) :
  In "tyre" (columns df) -> In c (columns df) ->
  c <> "tyre" -> ci_eqb "tyre" c = true ->
  check_tyre results df = Err (Ambiguous "tyre") /\
  (forall out, run df <> Ok out).
Proof.
  intros Ht Hc Hne Hci.
  assert (Hres : resolve "tyre" (columns df) = Err (Ambiguous "tyre")).
  { apply (resolve_ambiguous "tyre" "tyre" c); auto. }
  assert (Hchk : forall rs, check_tyre rs df = Err (Ambiguous "tyre")).
  { intros rs. unfold check_tyre, bad_tyre.
    rewrite (proj2 (has_col_iff "tyre" (columns df)) Ht), Hres. reflexivity. }
  split; [apply Hchk|].
  intros out H. unfold run in H. do 6 bind_inv H.
  rewrite Hchk in H. discriminate.
Qed.
End Presence.

Lemma cased_frame_NoDupCI : NoDupCI (columns cased_frame).
Proof.
  unfold NoDupCI. simpl. repeat constructor; simpl; intuition discriminate.
Qed.

Lemma presence_is_case_sensitive_witness :
  NoDupCI (columns cased_frame) /\
  resolve "timestamp_ms" (columns cased_frame) = Ok "Timestamp_MS" /\
  "Timestamp_MS" <> "timestamp_ms" /\
  (exists r, check_required [] cased_frame = Ok [r] /\ violations r = 1 /\
             In "timestamp_ms" (missing_from required (columns cased_frame))) /\
  (exists r1 r2, check_sequence (E := reference_engine) [] cased_frame = Ok [r1; r2] /\
     violations r1 = 1 /\ violations r2 = 1 /\
     note r1 = "missing columns" /\ note r2 = "missing columns") /\
  (exists bad r, bad_ts (E := reference_engine) cased_frame = Ok bad /\
     check_ts (E := reference_engine) [] cased_frame = Ok [r] /\
     violations r = count bad /\
     rows bad = filter (fun x => holds (ts_cond (get "Timestamp_MS" x)))
                       (rows cased_frame)).
Proof.
  split; [exact cased_frame_NoDupCI|]. split; [reflexivity|].
  split; [discriminate|].
  apply (presence_is_case_sensitive (E := reference_engine) cased_frame "Timestamp_MS").
  - exact cased_frame_NoDupCI.
  - reflexivity.
  - discriminate.
Defined.

Lemma guard_does_not_exclude_ambiguity_witness :
  In "tyre" (columns twin_frame) /\ In "Tyre" (columns twin_frame) /\
  "Tyre" <> "tyre" /\ ci_eqb "tyre" "Tyre" = true /\
  check_tyre (E := reference_engine) [] twin_frame = Err (Ambiguous "tyre") /\
  (forall out, run (E := reference_engine) twin_frame <> Ok out).
Proof.
  split; [simpl; tauto|]. split; [simpl; tauto|].
  split; [discriminate|]. split; [reflexivity|].
  apply (guard_does_not_exclude_ambiguity (E := reference_engine) twin_frame "Tyre" []).
  - simpl; tauto.
  - simpl; tauto.
  - discriminate.
  - reflexivity.
Defined.

(** ** Sampling, continued *)

Lemma get_project (names : list string) (c : string) (r : row) :
  In c names -> get c (project names r) = get c r.
Proof.
  unfold project. induction names as [|n names IH]; simpl; intros H; [contradiction|].
  destruct (String.eqb_spec c n) as [->|Hne]; [reflexivity|].
  apply IH. destruct H; [congruence|assumption].
Qed.

Lemma map_fst_project (names : list string) (r : row) :
  map fst (project names r) = names.
Proof.
  unfold project. rewrite map_map. simpl. apply map_id.
Qed.

Lemma nth_error_firstn_Some {A : Type} (n i : nat) (l : list A) (x : A) :
  nth_error (firstn n l) i = Some x -> nth_error l i = Some x.
Proof.
  revert i l. induction n as [|n IH]; intros i l H.
  - destruct i; discriminate.
  - destruct l as [|a l]; [destruct i; discriminate|].
    destruct i as [|i]; simpl in *; [exact H|apply IH; exact H].
Qed.

(** X5. On a frame whose column names are distinct up to case
    [sample_rows] never raises.  Requested columns the frame does not have
    are dropped; with none left the sample is empty, otherwise it has
    [min n (number of rows)] rows, the i-th of which has the remaining
    requested columns as keys, in the order requested, with the values of
    the i-th row of the frame. *)
Theorem sample_rows_shape (f : frame) (cols : list string) (n : nat) :
  NoDupCI (columns f) ->
  exists s,
    sample_rows f cols n = Ok s /\
    List.length s =
      match filter (fun c => has_col c (columns f)) cols with
      | [] => 0%nat
      | _ :: _ => Nat.min n (List.length (rows f))
      end /\
    (forall i x, nth_error s i = Some x ->
       map fst x = filter (fun c => has_col c (columns f)) cols /\
       exists r, nth_error (rows f) i = Some r /\
         forall c, In c cols -> In c (columns f) -> get c x = get c r).
Proof.
  intros Hnd. rewrite (sample_rows_ok f cols n Hnd).
  set (present := filter (fun c => has_col c (columns f)) cols).
  assert (Hpres : forall c, In c cols -> In c (columns f) -> In c present).
  { intros c Hc Hf. apply filter_In. split; [exact Hc|].
    apply has_col_iff. exact Hf. }
  eexists. split; [reflexivity|].
  destruct present as [|p ps] eqn:Hp.
  - split; [reflexivity|]. intros i x H. destruct i; discriminate.
  - rewrite <- Hp in *. split.
    + rewrite length_map, length_firstn. reflexivity.
    + intros i x H. rewrite nth_error_map in H.
      destruct (nth_error (firstn n (rows f)) i) as [r|] eqn:Hr; [|discriminate].
      injection H as <-. split; [apply map_fst_project|].
      exists r. split; [apply (nth_error_firstn_Some n); exact Hr|].
      intros c Hc Hf. apply get_project. apply Hpres; assumption.
Qed.

Lemma sample_rows_shape_witness :
  NoDupCI (columns full_frame) /\
  exists s,
    sample_rows full_frame ["event_id"; "prev_lap"; "lap"] 1 = Ok s /\
    List.length s =
      match filter (fun c => has_col c (columns full_frame))
                   ["event_id"; "prev_lap"; "lap"] with
      | [] => 0%nat
      | _ :: _ => Nat.min 1 (List.length (rows full_frame))
      end /\
    (forall i x, nth_error s i = Some x ->
       map fst x = filter (fun c => has_col c (columns full_frame))
                          ["event_id"; "prev_lap"; "lap"] /\
       exists r, nth_error (rows full_frame) i = Some r /\
         forall c, In c ["event_id"; "prev_lap"; "lap"] ->
                   In c (columns full_frame) -> get c x = get c r).
Proof.
  split; [exact script_columns_NoDupCI|].
  apply (sample_rows_shape full_frame ["event_id"; "prev_lap"; "lap"] 1).
  exact script_columns_NoDupCI.
Defined.

(** ** Duplicated keys in general *)

From Stdlib Require Import Permutation.

Lemma list_sum_cons (x : nat) (l : list nat) :
  list_sum (x :: l) = (x + list_sum l)%nat.
Proof. reflexivity. Qed.

Lemma list_sum_count_cons (a : list cell) (l ks : list (list cell)) :
  list_sum (map (count_occ key_eq_dec (a :: l)) ks) =
  (list_sum (map (count_occ key_eq_dec l) ks) + count_occ key_eq_dec ks a)%nat.
Proof.
  induction ks as [|k ks IH]; [reflexivity|].
  rewrite !map_cons, !list_sum_cons, IH. simpl count_occ.
  destruct (key_eq_dec a k) as [->|Hne].
  - destruct (key_eq_dec k k); [lia|congruence].
  - destruct (key_eq_dec k a); [congruence|lia].
Qed.

Lemma list_sum_count_le (l ks : list (list cell)) :
  NoDup ks ->
  (list_sum (map (count_occ key_eq_dec l) ks) <= List.length l)%nat.
Proof.
  intros Hnd. induction l as [|a l IH].
  - induction ks as [|k ks IHk]; [simpl; lia|].
    inversion Hnd; subst. rewrite map_cons, list_sum_cons. simpl count_occ.
    simpl. apply IHk. assumption.
  - rewrite list_sum_count_cons.
    pose proof (proj1 (NoDup_count_occ key_eq_dec ks) Hnd a). simpl. lia.
Qed.

Lemma list_sum_at_least (f : list cell -> nat) (ks : list (list cell)) (m : nat) :
  (forall k, In k ks -> (m <= f k)%nat) ->
  (m * List.length ks <= list_sum (map f ks))%nat.
Proof.
  induction ks as [|k ks IH]; intros H; [simpl; lia|].
  rewrite map_cons, list_sum_cons. cbn [List.length].
  pose proof (H k (or_introl eq_refl)).
  assert (m * List.length ks <= list_sum (map f ks))%nat
    by (apply IH; intros; apply H; right; assumption).
  lia.
Qed.

Lemma NoDup_map_on {A B : Type} (f : A -> B) (l : list A) :
  (forall x y, In x l -> In y l -> f x = f y -> x = y) ->
  NoDup l -> NoDup (map f l).
Proof.
  induction l as [|a l IH]; intros Hinj Hnd; [constructor|].
  inversion Hnd as [|x l' Ha Hl]; subst. simpl. constructor.
  - intros Hin. apply in_map_iff in Hin. destruct Hin as [y [Hy Hyl]].
    assert (y = a) by (apply Hinj; simpl; auto).
    subst. contradiction.
  - apply IH; [|exact Hl]. intros x y Hx Hy. apply Hinj; simpl; auto.
Qed.

Lemma key_of_pk_inj (keys : list (list cell)) (r1 r2 : row) :
  group_row keys (key_of pk r1) = group_row keys (key_of pk r2) ->
  key_of pk r1 = key_of pk r2.
Proof.
  unfold group_row, key_of, pk. cbn [map combine app].
  intros H. injection H as H1 H2 H3 H4 _. congruence.
Qed.

(** X6. With the four key columns in the frame, [dupes] has one row for
    each key tuple that occurs at least twice among the rows and no other
    row; the row carries the key values and the number of occurrences, no
    row is reported twice, and twice the number of reported rows never
    exceeds the number of rows of the frame. *)
Theorem duplicated_keys_report (df : frame) :
  all_present pk (columns df) = true ->
  NoDupCI (columns df) ->
  exists d,
    dupes df = Ok d /\
    columns d = pk ++ ["count"] /\
    NoDup (rows d) /\
    (forall x, In x (rows d) <->
       exists k, x = group_row (map (key_of pk) (rows df)) k /\
                 (2 <= count_occ key_eq_dec (map (key_of pk) (rows df)) k)%nat) /\
    2 * count d <= count df.
Proof.
  intros Hp Hnd. rewrite (dupes_rows df Hp Hnd).
  set (keys := map (key_of pk) (rows df)).
  set (dup := filter (fun k => Z.of_nat (count_occ key_eq_dec keys k) >? 1)
                     (distinct keys)).
  assert (Hdup : forall k, In k dup <->
            In k keys /\ (2 <= count_occ key_eq_dec keys k)%nat).
  { intros k. unfold dup. rewrite filter_In, In_distinct.
    rewrite Z.gtb_ltb, Z.ltb_lt. split; intros [H1 H2]; split; auto; lia. }
  assert (Hnd' : NoDup dup).
  { unfold dup. apply NoDup_filter, NoDup_distinct. }
  eexists. split; [reflexivity|]. cbn [columns rows].
  split; [reflexivity|]. split; [|split].
  - apply NoDup_map_on; [|exact Hnd'].
    intros x y Hx Hy Heq. apply Hdup in Hx, Hy.
    destruct Hx as [Hx _], Hy as [Hy _]. unfold keys in Hx, Hy.
    apply in_map_iff in Hx, Hy.
    destruct Hx as [r1 [<- _]], Hy as [r2 [<- _]].
    apply (key_of_pk_inj keys). exact Heq.
  - intros x. rewrite in_map_iff. split.
    + intros [k [<- Hk]]. exists k. split; [reflexivity|]. apply Hdup, Hk.
    + intros [k [-> Hk]]. exists k. split; [reflexivity|]. apply Hdup.
      split; [|exact Hk]. apply (count_occ_In key_eq_dec). lia.
  - unfold count. cbn [rows]. rewrite length_map.
    assert (H2 : (2 * List.length dup <=
                  list_sum (map (count_occ key_eq_dec keys) dup))%nat).
    { apply list_sum_at_least. intros k Hk. apply Hdup in Hk. tauto. }
    pose proof (list_sum_count_le keys dup Hnd') as H3.
    unfold keys in H3 at 2. rewrite length_map in H3. lia.
Qed.

Lemma duplicated_keys_report_witness :
  all_present pk (columns dup_frame) = true /\
  NoDupCI (columns dup_frame) /\
  exists d,
    dupes dup_frame = Ok d /\
    columns d = pk ++ ["count"] /\
    NoDup (rows d) /\
    (forall x, In x (rows d) <->
       exists k, x = group_row (map (key_of pk) (rows dup_frame)) k /\
                 (2 <= count_occ key_eq_dec (map (key_of pk) (rows dup_frame)) k)%nat) /\
    2 * count d <= count dup_frame.
Proof.
  assert (Hnd : NoDupCI (columns dup_frame)).
  { unfold NoDupCI. simpl. repeat constructor; simpl; intuition discriminate. }
  split; [reflexivity|]. split; [exact Hnd|].
  apply (duplicated_keys_report dup_frame); [reflexivity|exact Hnd].
Defined.

(** ** The window keeps the rows *)

Lemma insert_perm (ord : row -> option Z) (r : row) (l : list row) :
  Permutation (insert ord r l) (r :: l).
Proof.
  induction l as [|x l IH]; simpl; [apply Permutation_refl|].
  destruct (ord_leb (ord r) (ord x)); [apply Permutation_refl|].
  eapply Permutation_trans; [apply perm_skip, IH|apply perm_swap].
Qed.

Lemma sort_perm (ord : row -> option Z) (l : list row) :
  Permutation (sort ord l) l.
Proof.
  induction l as [|r l IH]; simpl; [apply Permutation_refl|].
  eapply Permutation_trans; [apply insert_perm|apply perm_skip, IH].
Qed.

Lemma filter_split_perm {A : Type} (p : A -> bool) (l : list A) :
  Permutation (filter p l ++ filter (fun x => negb (p x)) l) l.
Proof.
  induction l as [|a l IH]; simpl; [apply Permutation_refl|].
  destruct (p a); simpl.
  - apply perm_skip, IH.
  - eapply Permutation_trans; [apply Permutation_sym, Permutation_middle|].
    apply perm_skip, IH.
Qed.

Lemma key_eqb_eq (a b : list cell) : key_eqb a b = true <-> a = b.
Proof. unfold key_eqb. destruct (key_eq_dec a b); intuition congruence. Qed.

Lemma filter_filter_other (key : row -> list cell) (k k' : list cell)
    (l : list row) :
  k' <> k ->
  filter (fun r => key_eqb (key r) k')
         (filter (fun r => negb (key_eqb (key r) k)) l) =
  filter (fun r => key_eqb (key r) k') l.
Proof.
  intros Hne. induction l as [|a l IH]; simpl; [reflexivity|].
  destruct (key_eqb (key a) k) eqn:Hk; simpl.
  - apply key_eqb_eq in Hk.
    destruct (key_eqb (key a) k') eqn:Hk'; [|exact IH].
    apply key_eqb_eq in Hk'. congruence.
  - rewrite IH. reflexivity.
Qed.

Lemma groups_perm (key : row -> list cell) (ks : list (list cell)) :
  NoDup ks ->
  forall l, (forall r, In r l -> In (key r) ks) ->
  Permutation
    (List.concat (map (fun k => filter (fun r => key_eqb (key r) k) l) ks)) l.
Proof.
  induction ks as [|k ks IH]; intros Hnd l Hl.
  - destruct l as [|r l]; [apply Permutation_refl|].
    exfalso. apply (Hl r). left. reflexivity.
  - inversion Hnd as [|x ks' Hk Hks]; subst. cbn [map List.concat].
    eapply Permutation_trans; [|apply (filter_split_perm (fun r => key_eqb (key r) k))].
    apply Permutation_app_head.
    set (l' := filter (fun r => negb (key_eqb (key r) k)) l).
    assert (Hmap : map (fun k0 => filter (fun r => key_eqb (key r) k0) l) ks =
                   map (fun k0 => filter (fun r => key_eqb (key r) k0) l') ks).
    { apply map_ext_in. intros k' Hk'. symmetry. apply filter_filter_other.
      intros ->. contradiction. }
    rewrite Hmap. apply IH; [exact Hks|].
    intros r Hr. unfold l' in Hr. apply filter_In in Hr. destruct Hr as [Hr Hn].
    destruct (Hl r Hr) as [Heq|Hin]; [|exact Hin].
    apply negb_true_iff in Hn.
    assert (key_eqb (key r) k = true) by (apply key_eqb_eq; congruence).
    congruence.
Qed.

Lemma partitions_perm (key : row -> list cell) (l : list row) :
  Permutation (List.concat (partitions key l)) l.
Proof.
  unfold partitions. apply groups_perm; [apply NoDup_distinct|].
  intros r Hr. apply In_distinct. apply in_map. exact Hr.
Qed.

Lemma concat_map_perm {A : Type} (f : list A -> list A) (ls : list (list A)) :
  (forall l, Permutation (f l) l) ->
  Permutation (List.concat (map f ls)) (List.concat ls).
Proof.
  intros H. induction ls as [|l ls IH]; simpl; [apply Permutation_refl|].
  apply Permutation_app; [apply H|exact IH].
Qed.

Section WindowRows.
Context {E : Engine}.

Lemma lagged_get (x : string) (p1 p2 : cell) (rs : list row) :
  ci_eqb "prev_ts" x = false -> ci_eqb "prev_lap" x = false ->
  ci_eqb "ts_long" x = false -> ci_eqb "lap_long" x = false ->
  map (get x) (lagged p1 p2 (map extend rs)) = map (get x) rs.
Proof.
  intros H1 H2 H3 H4. revert p1 p2.
  induction rs as [|r rs IH]; intros p1 p2; [reflexivity|].
  unfold lagged in *. cbn [map lag_rows]. rewrite IH. f_equal.
  rewrite !get_put_other by assumption. apply get_extend; assumption.
Qed.

(** X7. With the five columns in the frame, the window step neither
    drops nor duplicates rows: [d2] has as many rows as the frame, and for
    every column other than the four derived ones its values in [d2] are
    a permutation of its values in the frame. *)
Theorem window_keeps_rows (df : frame) (x : string) :
  all_present need (columns df) = true ->
  NoDupCI (columns df) ->
  ci_eqb "prev_ts" x = false -> ci_eqb "prev_lap" x = false ->
  ci_eqb "ts_long" x = false -> ci_eqb "lap_long" x = false ->
  exists d,
    d2 df = Ok d /\
    count d = count df /\
    Permutation (map (get x) (rows d)) (map (get x) (rows df)) /\
    Permutation (map (key_of need) (rows d)) (map (key_of need) (rows df)).
Proof.
  intros Hp Hnd H1 H2 H3 H4.
  destruct (sequence_frames df Hp Hnd) as [Hd [_ [_ [_ Hrows]]]].
  assert (Hperm : Permutation (List.concat (lap_ordered df)) (rows df)).
  { unfold lap_ordered.
    eapply Permutation_trans; [apply concat_map_perm, sort_perm|].
    apply partitions_perm. }
  assert (Hx : map (get x) (rows (window_frame df)) =
               map (get x) (List.concat (lap_ordered df))).
  { rewrite Hrows, map_flat_map, flat_map_concat_map, concat_map.
    f_equal. apply map_ext. intros p. apply lagged_get; assumption. }
  assert (Hk : map (key_of need) (rows (window_frame df)) =
               map (key_of need) (List.concat (lap_ordered df))).
  { rewrite Hrows, map_flat_map, flat_map_concat_map, concat_map.
    f_equal. apply map_ext. intros p. apply lagged_keys. }
  exists (window_frame df). split; [exact Hd|]. split; [|split].
  - unfold count. f_equal.
    rewrite <- (length_map (get x) (rows (window_frame df))), Hx, length_map.
    apply Permutation_length. exact Hperm.
  - rewrite Hx. apply Permutation_map. exact Hperm.
  - rewrite Hk. apply Permutation_map. exact Hperm.
Qed.
End WindowRows.

Lemma window_keeps_rows_witness :
  all_present need (columns laps_frame) = true /\
  NoDupCI (columns laps_frame) /\
  exists d,
    d2 (E := reference_engine) laps_frame = Ok d /\
    count d = count laps_frame /\
    Permutation (map (get "lap") (rows d)) (map (get "lap") (rows laps_frame)) /\
    Permutation (map (key_of need) (rows d)) (map (key_of need) (rows laps_frame)).
Proof.
  split; [reflexivity|]. split; [exact need_NoDupCI|].
  apply (window_keeps_rows (E := reference_engine) laps_frame "lap");
    solve [reflexivity | exact need_NoDupCI].
Defined.

(** ** Monotone data pass the timestamp sequence check *)

Section Monotone.
Context {E : Engine}.



End Monotone.


(** ** Decimal digits of a long *)

From Stdlib Require Import Decimal DecimalFacts DecimalPos.

Lemma of_uint_acc_bounds (d : uint) (acc : positive) :
  Zpos acc * 10 ^ Z.of_nat (nb_digits d) <= Zpos (Pos.of_uint_acc d acc) /\
  Zpos (Pos.of_uint_acc d acc) < (Zpos acc + 1) * 10 ^ Z.of_nat (nb_digits d).
Proof.
  revert acc. induction d as [|d IH|d IH|d IH|d IH|d IH|d IH|d IH|d IH|d IH|d IH];
    intros acc;
    [simpl; lia| | | | | | | | | |];
    cbn [Pos.of_uint_acc nb_digits]; rewrite Nat2Z.inj_succ, Z.pow_succ_r by lia;
    match goal with |- context [Pos.of_uint_acc d ?a] => specialize (IH a) end;
    assert (0 < 10 ^ Z.of_nat (nb_digits d)) by (apply Z.pow_pos_nonneg; lia);
    nia.
Qed.

Lemma of_uint_head_bounds (d : uint) (p : positive) :
  Pos.of_uint d = Npos p -> nzhead d = d ->
  10 ^ (Z.of_nat (nb_digits d) - 1) <= Zpos p < 10 ^ Z.of_nat (nb_digits d).
Proof.
  intros Hv Hh.
  destruct d as [|d|d|d|d|d|d|d|d|d|d];
    [discriminate Hv
    |exfalso; apply (nzhead_nonzero (D0 d) d); exact Hh
    | | | | | | | | |];
    cbn [Pos.of_uint] in Hv; injection Hv as <-;
    cbn [nb_digits]; rewrite Nat2Z.inj_succ;
    replace (Z.succ (Z.of_nat (nb_digits d)) - 1) with (Z.of_nat (nb_digits d)) by lia;
    rewrite Z.pow_succ_r by lia;
    match goal with |- context [Pos.of_uint_acc d ?a] =>
      pose proof (of_uint_acc_bounds d a) end;
    assert (0 < 10 ^ Z.of_nat (nb_digits d)) by (apply Z.pow_pos_nonneg; lia);
    nia.
Qed.

Lemma to_uint_nzhead (p : positive) : nzhead (Pos.to_uint p) = Pos.to_uint p.
Proof.
  pose proof (Unsigned.to_of (Pos.to_uint p)) as H.
  rewrite Unsigned.of_to in H. simpl in H.
  symmetry. rewrite H at 1. apply unorm_nzhead.
  intros Hn. apply (Unsigned.to_uint_nonzero p).
  rewrite H. unfold unorm. rewrite Hn. reflexivity.
Qed.

Lemma to_uint_digits (p : positive) :
  10 ^ (Z.of_nat (nb_digits (Pos.to_uint p)) - 1) <= Zpos p
  < 10 ^ Z.of_nat (nb_digits (Pos.to_uint p)).
Proof.
  apply of_uint_head_bounds; [apply Unsigned.of_to|apply to_uint_nzhead].
Qed.

Lemma to_uint_13_digits (p : positive) :
  nb_digits (Pos.to_uint p) = 13%nat <-> 10 ^ 12 <= Zpos p < 10 ^ 13.
Proof.
  pose proof (to_uint_digits p) as H.
  set (n := nb_digits (Pos.to_uint p)) in *.
  split.
  - intros Hn. rewrite Hn in H. exact H.
  - intros Hp.
    destruct (Nat.lt_trichotomy n 13) as [Hlt|[Heq|Hgt]]; [|exact Heq|].
    + assert (10 ^ Z.of_nat n <= 10 ^ 12) by (apply Z.pow_le_mono_r; lia). lia.
    + assert (10 ^ 13 <= 10 ^ (Z.of_nat n - 1)) by (apply Z.pow_le_mono_r; lia). lia.
Qed.

Lemma string_of_uint_digits (d : uint) :
  all_digits (NilEmpty.string_of_uint d) = true /\
  String.length (NilEmpty.string_of_uint d) = nb_digits d.
Proof.
  induction d; simpl; try (destruct IHd as [-> ->]); split; reflexivity.
Qed.

Lemma all_digits_not_terminator (t : string) :
  all_digits t = true -> t <> "" -> ~ In t line_terminators.
Proof.
  intros Hd Hne Hin. simpl in Hin.
  repeat (destruct Hin as [<-|Hin]; [discriminate Hd|]). exact Hin.
Qed.

Lemma all_digits_drop (n : nat) (s : string) :
  all_digits s = true -> all_digits (drop n s) = true.
Proof.
  revert s. induction n as [|n IH]; intros s H; [exact H|].
  destruct s as [|c s]; [exact H|]. simpl in *.
  apply andb_true_iff in H. apply IH. tauto.
Qed.

Lemma rlike_digits (s : string) :
  all_digits s = true ->
  rlike_13_digits s = Nat.eqb (String.length s) 13.
Proof.
  intros Hd. rewrite rlike_13_digits_exact.
  - unfold exactly_13_digits. rewrite Hd. apply andb_true_r.
  - intros Hin. destruct (string_dec (drop 13 s) "") as [He|Hne].
    + rewrite He in Hin. simpl in Hin.
      repeat (destruct Hin as [Hin|Hin]; [discriminate Hin|]). exact Hin.
    + revert Hin. apply all_digits_not_terminator; [|exact Hne].
      apply all_digits_drop. exact Hd.
Qed.

Lemma rlike_long (z : Z) :
  rlike_13_digits (long_to_string z) = true <-> 10 ^ 12 <= z < 10 ^ 13.
Proof.
  unfold long_to_string. destruct z as [|p|p].
  - simpl. split; [discriminate|lia].
  - cbn [Z.to_int NilZero.string_of_int].
    assert (Hs : NilZero.string_of_uint (Pos.to_uint p) =
                 NilEmpty.string_of_uint (Pos.to_uint p)).
    { unfold NilZero.string_of_uint.
      destruct (Pos.to_uint p) eqn:Hp; try reflexivity.
      exfalso. apply (Unsigned.to_uint_nonnil p). exact Hp. }
    rewrite Hs.
    destruct (string_of_uint_digits (Pos.to_uint p)) as [Hd Hl].
    rewrite (rlike_digits _ Hd), Hl, Nat.eqb_eq. apply to_uint_13_digits.
  - cbn [Z.to_int NilZero.string_of_int].
    split; [|lia]. intros H. exfalso. revert H.
    unfold rlike_13_digits. cbn [take]. simpl all_digits.
    rewrite andb_false_r. discriminate.
Qed.

(** ** The other row-level checks *)

Section RowChecks.
Context {E : Engine}.

Lemma floor_cond_iff (lo : double) (c : cell) :
  holds (floor_cond lo c) = true <->
  c = VNull \/ cast_double c = None \/
  exists d, cast_double c = Some d /\ double_lt d lo.
Proof.
  unfold floor_cond. rewrite holds_or3.
  destruct (cast_double c) as [d|] eqn:Hc; unfold isNull, lift2.
  - rewrite !holds_Some, double_ltb_lt. split.
    + intros [H|H]; [discriminate|]. right; right. exists d. auto.
    + intros [H|[H|[d' [Hd H]]]].
      * subst c. discriminate.
      * discriminate.
      * injection Hd as <-. auto.
  - split; auto.
Qed.

(** X9. With the column [track_temp_c] in the frame, the track check
    keeps the columns of the frame and reports a row exactly when its
    value is null, does not coerce to a number or lies outside
    [[-20, 80]]. *)
Theorem track_temperature_check (df : frame) (c : string) :
  resolve "track_temp_c" (columns df) = Ok c ->
  exists bad,
    bad_track df = Ok bad /\
    columns bad = columns df /\
    forall r, In r (rows bad) <->
      In r (rows df) /\
      out_of_range (double_of_Z (-20)) (double_of_Z 80) (get c r).
Proof.
  intros Hc. unfold bad_track. rewrite Hc. cbv [bind].
  eexists. split; [reflexivity|]. split; [reflexivity|].
  intros r. rewrite where_In, range_cond_iff. reflexivity.
Qed.

(** X10. With the column [fuel_kg] in the frame, the fuel check reports
    a row exactly when its value is null, does not coerce to a number or
    is below 0.  There is no upper bound: a value of +Infinity or NaN,
    which Spark orders above every number, is never reported. *)
Theorem fuel_check_has_no_upper_bound (df : frame) (c : string) :
  resolve "fuel_kg" (columns df) = Ok c ->
  exists bad,
    bad_fuel df = Ok bad /\
    (forall r, In r (rows bad) <->
       In r (rows df) /\
       (get c r = VNull \/ cast_double (get c r) = None \/
        exists d, cast_double (get c r) = Some d /\ double_lt d (double_of_Z 0))) /\
    (forall r d, In r (rows bad) -> cast_double (get c r) = Some d ->
       d <> DNaN /\ d <> DPosInf).
Proof.
  intros Hc. unfold bad_fuel. rewrite Hc. cbv [bind].
  eexists. split; [reflexivity|]. split.
  - intros r. rewrite where_In, floor_cond_iff. reflexivity.
  - intros r d Hin Hd. apply where_In in Hin. destruct Hin as [_ Hin].
    apply floor_cond_iff in Hin.
    destruct Hin as [H|[H|[d' [Hd' Hlt]]]].
    + rewrite H in Hd. discriminate.
    + congruence.
    + assert (d' = d) by congruence. subst d'.
      split; intros ->; discriminate Hlt.
Qed.

Lemma tyre_cond_iff (c : cell) :
  holds (tyre_cond c) = true <->
  exists s, cast_string c = Some s /\ ~ In (lower s) tyre_domain.
Proof.
  unfold tyre_cond, isin, not3.
  change (map lower allowed) with tyre_domain.
  destruct (cast_string c) as [s|]; cbn [option_map].
  - rewrite holds_Some, negb_true_iff. split.
    + intros H. exists s. split; [reflexivity|]. intros Hin.
      assert (Hex : existsb (String.eqb (lower s)) tyre_domain = true).
      { apply existsb_exists. exists (lower s). split; [exact Hin|apply String.eqb_refl]. }
      congruence.
    + intros [s' [Hs Hn]]. injection Hs as <-. apply not_true_is_false.
      intros Hex. apply Hn. apply existsb_exists in Hex.
      destruct Hex as [x [Hx Heq]]. apply String.eqb_eq in Heq. subst. exact Hx.
  - split; [discriminate|]. intros [s [Hs _]]. discriminate.
Qed.

(** X11. With the column [tyre] in the frame, the domain check reports a
    row exactly when its tyre is not null and the lower-cased string form
    is none of soft, medium, hard, wet, intermediate: a null tyre is never
    reported, and a string equal to an allowed value up to letter case
    never is. *)
Theorem tyre_domain_check (df : frame) (t : string) :
  resolve "tyre" (columns df) = Ok t ->
  exists bad,
    bad_tyre df = Ok bad /\
    (forall r, In r (rows bad) <->
       In r (rows df) /\
       exists s, cast_string (get t r) = Some s /\ ~ In (lower s) tyre_domain) /\
    (forall r, In r (rows bad) -> get t r <> VNull) /\
    (forall r s, In r (rows df) -> get t r = VString s ->
       In (lower s) tyre_domain -> ~ In r (rows bad)).
Proof.
  intros Ht. unfold bad_tyre. rewrite Ht. cbv [bind].
  eexists. split; [reflexivity|]. split; [|split].
  - intros r. rewrite where_In, tyre_cond_iff. reflexivity.
  - intros r Hin Hnull. apply where_In in Hin. destruct Hin as [_ Hin].
    apply tyre_cond_iff in Hin. destruct Hin as [s [Hs _]].
    rewrite Hnull in Hs. discriminate.
  - intros r s _ Hv Hdom Hin. apply where_In in Hin. destruct Hin as [_ Hin].
    apply tyre_cond_iff in Hin. destruct Hin as [s' [Hs Hn]].
    rewrite Hv in Hs. injection Hs as <-. contradiction.
Qed.

(** X12. With the column [timestamp_ms] in the frame, the format check
    reports a row exactly when its value is null or its string form is
    rejected by the pattern; for a long value this means exactly that the
    value lies outside [[10^12, 10^13)], so zero, negative, 12-digit and
    14-digit values are all reported. *)
Theorem timestamp_check_on_longs (df : frame) (c : string) :
  resolve "timestamp_ms" (columns df) = Ok c ->
  exists bad,
    bad_ts df = Ok bad /\
    (forall r, In r (rows bad) <->
       In r (rows df) /\
       (get c r = VNull \/
        exists s, cast_string (get c r) = Some s /\ rlike_13_digits s = false)) /\
    (forall r z, In r (rows df) -> get c r = VLong z ->
       (In r (rows bad) <-> ~ (10 ^ 12 <= z < 10 ^ 13))).
Proof.
  intros Hc. unfold bad_ts. rewrite Hc. cbv [bind].
  eexists. split; [reflexivity|]. split.
  - intros r. rewrite where_In, ts_cond_iff. reflexivity.
  - intros r z Hr Hz. rewrite where_In, ts_cond_iff, Hz.
    cbn [cast_string]. rewrite <- rlike_long. split.
    + intros [_ [H|[s [Hs Hf]]]]; [discriminate|].
      injection Hs as <-. congruence.
    + intros H. split; [exact Hr|]. right. eexists. split; [reflexivity|].
      apply not_true_is_false. exact H.
Qed.
End RowChecks.

Lemma track_temperature_check_witness :
  resolve "track_temp_c" (columns pit_frame) = Ok "track_temp_c" /\
  exists bad,
    bad_track (E := reference_engine) pit_frame = Ok bad /\
    columns bad = columns pit_frame /\
    forall r, In r (rows bad) <->
      In r (rows pit_frame) /\
      out_of_range (double_of_Z (-20)) (double_of_Z 80) (get "track_temp_c" r).
Proof.
  split; [reflexivity|].
  apply (track_temperature_check (E := reference_engine) pit_frame "track_temp_c").
  reflexivity.
Defined.

Lemma fuel_check_has_no_upper_bound_witness :
  resolve "fuel_kg" (columns pit_frame) = Ok "fuel_kg" /\
  exists bad,
    bad_fuel (E := reference_engine) pit_frame = Ok bad /\
    (forall r, In r (rows bad) <->
       In r (rows pit_frame) /\
       (get "fuel_kg" r = VNull \/ cast_double (get "fuel_kg" r) = None \/
        exists d, cast_double (get "fuel_kg" r) = Some d /\
                  double_lt d (double_of_Z 0))) /\
    (forall r d, In r (rows bad) -> cast_double (get "fuel_kg" r) = Some d ->
       d <> DNaN /\ d <> DPosInf).
Proof.
  split; [reflexivity|].
  apply (fuel_check_has_no_upper_bound (E := reference_engine) pit_frame "fuel_kg").
  reflexivity.
Defined.

Lemma tyre_domain_check_witness :
  resolve "tyre" (columns pit_frame) = Ok "tyre" /\
  exists bad,
    bad_tyre (E := reference_engine) pit_frame = Ok bad /\
    (forall r, In r (rows bad) <->
       In r (rows pit_frame) /\
       exists s, cast_string (get "tyre" r) = Some s /\
                 ~ In (lower s) tyre_domain) /\
    (forall r, In r (rows bad) -> get "tyre" r <> VNull) /\
    (forall r s, In r (rows pit_frame) -> get "tyre" r = VString s ->
       In (lower s) tyre_domain -> ~ In r (rows bad)).
Proof.
  split; [reflexivity|].
  apply (tyre_domain_check (E := reference_engine) pit_frame "tyre").
  reflexivity.
Defined.

Lemma timestamp_check_on_longs_witness :
  resolve "timestamp_ms" (columns pit_frame) = Ok "timestamp_ms" /\
  exists bad,
    bad_ts (E := reference_engine) pit_frame = Ok bad /\
    (forall r, In r (rows bad) <->
       In r (rows pit_frame) /\
       (get "timestamp_ms" r = VNull \/
        exists s, cast_string (get "timestamp_ms" r) = Some s /\
                  rlike_13_digits s = false)) /\
    (forall r z, In r (rows pit_frame) -> get "timestamp_ms" r = VLong z ->
       (In r (rows bad) <-> ~ (10 ^ 12 <= z < 10 ^ 13))).
Proof.
  split; [reflexivity|].
  apply (timestamp_check_on_longs (E := reference_engine) pit_frame "timestamp_ms").
  reflexivity.
Defined.

(** ** Cleaned column names *)

Lemma lstrip_Forall (P : N -> Prop) (s : pystr) :
  Forall P s -> Forall P (lstrip s).
Proof.
  induction s as [|c s IH]; simpl; intros H; [constructor|].
  destruct (py_isspace c); [|exact H]. inversion H; auto.
Qed.

Lemma strip_Forall (P : N -> Prop) (s : pystr) :
  Forall P s -> Forall P (strip s).
Proof.
  intros H. unfold strip, rstrip.
  apply Forall_rev, lstrip_Forall, Forall_rev, lstrip_Forall, H.
Qed.

Lemma sub_spaces_Forall (P : N -> Prop) (b : bool) (s : pystr) :
  P underscore -> Forall P s -> Forall P (sub_spaces b s).
Proof.
  intros Hu. revert b. induction s as [|c s IH]; intros b H; [constructor|].
  inversion H; subst. simpl.
  destruct (py_isspace c); [destruct b|]; try constructor; auto.
Qed.

Lemma sub_spaces_no_space (b : bool) (s : pystr) :
  Forall (fun c => py_isspace c = false) (sub_spaces b s).
Proof.
  revert b. induction s as [|c s IH]; intros b; [constructor|]. simpl.
  destruct (py_isspace c) eqn:Hc; [destruct b|]; try constructor; auto.
Qed.

Lemma replace_bom_Forall (s : pystr) : Forall (fun c => c <> BOM) (replace_bom s).
Proof.
  unfold replace_bom. apply Forall_forall. intros c Hc.
  apply filter_In in Hc. destruct Hc as [_ Hc].
  apply negb_true_iff, N.eqb_neq in Hc. exact Hc.
Qed.

(** X13. A cleaned column name holds no white space and no byte order
    mark, whatever the header was. *)
Theorem clean_name_is_plain (c : pystr) : Forall plain (clean_name c).
Proof.
  unfold clean_name, plain. apply Forall_and.
  - apply sub_spaces_no_space.
  - apply sub_spaces_Forall; [discriminate|].
    apply strip_Forall, replace_bom_Forall.
Qed.

Lemma lstrip_plain (s : pystr) :
  Forall (fun c => py_isspace c = false) s -> lstrip s = s.
Proof.
  intros H. destruct H as [|c s Hc _]; [reflexivity|]. simpl. rewrite Hc. reflexivity.
Qed.

Lemma sub_spaces_plain (s : pystr) :
  Forall (fun c => py_isspace c = false) s -> sub_spaces false s = s.
Proof.
  induction 1 as [|c s Hc _ IH]; [reflexivity|]. simpl. rewrite Hc, IH. reflexivity.
Qed.

Lemma replace_bom_plain (s : pystr) :
  Forall (fun c => c <> BOM) s -> replace_bom s = s.
Proof.
  induction 1 as [|c s Hc _ IH]; [reflexivity|]. unfold replace_bom in *. simpl.
  apply N.eqb_neq in Hc. rewrite Hc. simpl. rewrite IH. reflexivity.
Qed.

Lemma clean_name_fixed (n : pystr) : Forall plain n -> clean_name n = n.
Proof.
  intros H. apply Forall_and_inv in H. destruct H as [Hs Hb].
  unfold clean_name, strip, rstrip.
  rewrite (replace_bom_plain n Hb), (lstrip_plain n Hs).
  rewrite (lstrip_plain (List.rev n)) by (apply Forall_rev; exact Hs).
  rewrite rev_involutive. apply sub_spaces_plain. exact Hs.
Qed.

(** X14. [clean_cols] is idempotent, leaves names without white space
    and byte order mark untouched, and keeps the number of columns. *)
Theorem clean_cols_idempotent (columns : list pystr) :
  clean_cols (clean_cols columns) = clean_cols columns /\
  (Forall (Forall plain) columns -> clean_cols columns = columns) /\
  List.length (clean_cols columns) = List.length columns.
Proof.
  unfold clean_cols. split; [|split].
  - rewrite map_map. apply map_ext. intros n.
    apply clean_name_fixed, clean_name_is_plain.
  - intros H. induction H as [|n l Hn _ IH]; [reflexivity|].
    simpl. rewrite IH, (clean_name_fixed n Hn). reflexivity.
  - apply length_map.
Qed.

Lemma lstrip_app (s t : pystr) :
  lstrip s <> [] -> lstrip (s ++ t) = lstrip s ++ t.
Proof.
  induction s as [|c s IH]; simpl; intros H; [congruence|].
  destruct (py_isspace c); [apply IH; exact H|reflexivity].
Qed.

Lemma lstrip_app_space (s : pystr) (c : N) :
  py_isspace c = true -> lstrip s = [] -> lstrip (s ++ [c]) = [].
Proof.
  intros Hc. induction s as [|a s IH]; simpl; intros H.
  - rewrite Hc. reflexivity.
  - destruct (py_isspace a); [apply IH; exact H|discriminate].
Qed.

Lemma strip_app_space (s : pystr) (c : N) :
  py_isspace c = true -> strip (s ++ [c]) = strip s.
Proof.
  intros Hc. unfold strip, rstrip.
  destruct (lstrip s) as [|a l] eqn:Hs.
  - rewrite (lstrip_app_space s c Hc Hs). reflexivity.
  - rewrite lstrip_app by (rewrite Hs; discriminate).
    rewrite Hs, rev_app_distr. simpl List.rev at 1. cbn [app lstrip].
    rewrite Hc. reflexivity.
Qed.

(** X15. Cleaning is not injective: white space before or after a name
    and a byte order mark anywhere in it are ignored, so headers that
    differ only in these get the same cleaned name. *)
Theorem clean_name_merges_names (n : pystr) (c : N) :
  py_isspace c = true ->
  clean_name (c :: n) = clean_name n /\
  clean_name (n ++ [c]) = clean_name n /\
  (forall a b, clean_name (a ++ BOM :: b) = clean_name (a ++ b)).
Proof.
  intros Hc.
  assert (Hnb : (c =? BOM)%N = false).
  { apply N.eqb_neq. intros ->. discriminate Hc. }
  split; [|split].
  - unfold clean_name, replace_bom. simpl filter. rewrite Hnb. simpl negb.
    cbn iota. unfold strip. simpl lstrip. rewrite Hc. reflexivity.
  - unfold clean_name, replace_bom. rewrite filter_app. simpl filter.
    rewrite Hnb. simpl negb. cbn iota.
    fold (replace_bom n). rewrite strip_app_space by exact Hc. reflexivity.
  - intros a b. unfold clean_name, replace_bom. rewrite !filter_app.
    reflexivity.
Qed.

Lemma clean_name_merges_names_witness :
  py_isspace 32 = true /\
  clean_name (32%N :: [108; 97; 112]%N) = clean_name [108; 97; 112]%N /\
  clean_name ([108; 97; 112]%N ++ [32%N]) = clean_name [108; 97; 112]%N /\
  (forall a b, clean_name (a ++ BOM :: b) = clean_name (a ++ b)).
Proof.
  split; [reflexivity|].
  apply (clean_name_merges_names [108; 97; 112]%N 32%N). reflexivity.
Defined.

(** ** Markup of the sample table *)

Lemma occ_append (c : ascii) (s t : string) :
  occ c (s ++ t)%string = (occ c s + occ c t)%nat.
Proof. induction s as [|a s IH]; simpl; [reflexivity|]. rewrite IH. lia. Qed.

Lemma occ_replace (a c : ascii) (rep s : string) :
  occ a (replace_char c rep s) =
  ((if Ascii.eqb a c then 0 else occ a s) + occ a rep * occ c s)%nat.
Proof.
  induction s as [|x s IH]; simpl; [destruct (Ascii.eqb a c); lia|].
  destruct (Ascii.eqb_spec x c) as [->|Hxc].
  - rewrite occ_append, IH.
    destruct (Ascii.eqb_spec a c) as [->|Hac].
    + lia.
    + destruct (Ascii.eqb_spec c a); [congruence|]. lia.
  - simpl. rewrite IH.
    destruct (Ascii.eqb_spec a c) as [->|Hac].
    + destruct (Ascii.eqb_spec x c); [congruence|]. lia.
    + lia.
Qed.

Lemma html_escape_special (s : string) :
  occ "<" (html_escape s) = 0%nat /\ occ ">" (html_escape s) = 0%nat /\
  occ dquote (html_escape s) = 0%nat /\ occ "'" (html_escape s) = 0%nat.
Proof.
  unfold html_escape. repeat split; rewrite !occ_replace; simpl; lia.
Qed.

Lemma occ_concat (c : ascii) (l : list string) :
  occ c (String.concat "" l) = list_sum (map (occ c) l).
Proof.
  induction l as [|s l IH]; [reflexivity|].
  destruct l as [|t l]; [simpl; lia|].
  change (String.concat "" (s :: t :: l))
    with (s ++ "" ++ String.concat "" (t :: l))%string.
  rewrite !occ_append, IH. simpl. lia.
Qed.

Lemma list_sum_const {A : Type} (f : A -> nat) (k : nat) (l : list A) :
  (forall x, f x = k) -> list_sum (map f l) = (List.length l * k)%nat.
Proof.
  intros H. induction l as [|a l IH]; [reflexivity|].
  simpl. rewrite H, IH. lia.
Qed.

Section TableFacts.
Variable float_str : double -> string.

Lemma occ_cells (c : ascii) (k : nat) (f : string -> string) (cols : list string) :
  (forall x, occ c (f x) = k) ->
  occ c (String.concat "" (map f cols)) = (List.length cols * k)%nat.
Proof.
  intros H. rewrite occ_concat, map_map. apply list_sum_const. exact H.
Qed.

(** X16. Cell values and column names cannot inject markup into the
    sample table: the numbers of [<], [>] and quote characters of
    [html_table rows cols] depend only on the number of rows and of
    columns (2 tags for the placeholder of an empty sample, otherwise
    [8 + 2c + r(2 + 2c)] of each angle bracket, the two quotes of the
    class attribute and no double quote). *)
Theorem html_table_markup (rows : list row) (cols : list string) :
  let n := List.length (match cols with [] => keys_of rows | _ :: _ => cols end) in
  let tags := match rows with
              | [] => 2%nat
              | _ :: _ => (8 + 2 * n + List.length rows * (2 + 2 * n))%nat
              end in
  occ "<" (html_table float_str rows cols) = tags /\
  occ ">" (html_table float_str rows cols) = tags /\
  occ dquote (html_table float_str rows cols) = 0%nat /\
  occ "'" (html_table float_str rows cols) =
    match rows with [] => 0%nat | _ :: _ => 2%nat end.
Proof.
  intros n tags. unfold html_table.
  destruct rows as [|r rows]; [repeat split; reflexivity|].
  set (rs := r :: rows) in *.
  set (cs := match cols with [] => keys_of rs | _ :: _ => cols end) in *.
  assert (Hcell : forall (c : ascii) (k : nat) (x : row),
            (forall s, occ c (html_escape s) = 0%nat) ->
            (occ c "<td>" + occ c "</td>")%nat = k ->
            occ c (String.concat ""
                     (map (fun col => "<td>" ++ html_escape (safe_str float_str (get col x))
                                      ++ "</td>")%string cs)) =
            (List.length cs * k)%nat).
  { intros c k x He Hk. apply occ_cells. intros col.
    rewrite !occ_append, He. lia. }
  assert (Hhead : forall (c : ascii) (k : nat),
            (forall s, occ c (html_escape s) = 0%nat) ->
            (occ c "<th>" + occ c "</th>")%nat = k ->
            occ c (String.concat ""
                     (map (fun col => "<th>" ++ html_escape col ++ "</th>")%string cs)) =
            (List.length cs * k)%nat).
  { intros c k He Hk. apply occ_cells. intros col.
    rewrite !occ_append, He. lia. }
  assert (Hbody : forall (c : ascii) (k t : nat),
            (forall s, occ c (html_escape s) = 0%nat) ->
            (occ c "<td>" + occ c "</td>")%nat = k ->
            (occ c "<tr>" + occ c "</tr>")%nat = t ->
            occ c (String.concat ""
                     (map (fun x =>
                             "<tr>" ++
                             String.concat ""
                               (map (fun col => "<td>" ++
                                      html_escape (safe_str float_str (get col x))
                                      ++ "</td>")%string cs)
                             ++ "</tr>")%string rs)) =
            (List.length rs * (t + List.length cs * k))%nat).
  { intros c k t He Hk Ht. rewrite occ_concat, map_map.
    apply list_sum_const. intros x.
    rewrite !occ_append, (Hcell c k x He Hk). lia. }
  pose proof (fun s => proj1 (html_escape_special s)) as E1.
  pose proof (fun s => proj1 (proj2 (html_escape_special s))) as E2.
  pose proof (fun s => proj1 (proj2 (proj2 (html_escape_special s)))) as E3.
  pose proof (fun s => proj2 (proj2 (proj2 (html_escape_special s)))) as E4.
  unfold tags, n. fold cs.
  repeat split; rewrite !occ_append.
  - rewrite (Hhead "<"%char 2%nat E1 eq_refl), (Hbody "<"%char 2%nat 2%nat E1 eq_refl eq_refl).
    simpl occ. lia.
  - rewrite (Hhead ">"%char 2%nat E2 eq_refl), (Hbody ">"%char 2%nat 2%nat E2 eq_refl eq_refl).
    simpl occ. lia.
  - rewrite (Hhead dquote 0%nat E3 eq_refl), (Hbody dquote 0%nat 0%nat E3 eq_refl eq_refl).
    simpl occ. lia.
  - rewrite (Hhead "'"%char 0%nat E4 eq_refl), (Hbody "'"%char 0%nat 0%nat E4 eq_refl eq_refl).
    simpl occ. lia.
Qed.
End TableFacts.
